(** * Openlist-Ani: download state-machine contract, RSS ingestion cycle,
      Telegram assistant, search tool and metadata parser.

    The development embeds:

    - [core/download/downloader/base.py]: the [StateTransition] dataclass
      and its four semantic constructors;
    - [core/rss.py]: [RSSManager.check_update] with its helpers, written in
      a small reader/state monad that threads the manager object and an
      event trace;
    - [assistant/telegram_assistant.py]: [_append_history], the polling
      offset, the message context, the command, authorization and status
      message handlers, and the per-user history lists;
    - [assistant/tools/search_anime.py]: [SearchAnimeTool];
    - [core/parser/parser.py]: the completion loop.
*)

From Stdlib Require Import List String ZArith Lia Bool Floats.
From Stdlib Require Import Permutation DecimalString.
Import ListNotations.

Local Open Scope string_scope.

(* ===================================================================== *)
(** * core/download/downloader/base.py                                    *)
(* ===================================================================== *)

Module Base.

(** Modelled from the spec: the enumeration [DownloadState] lives in
    [core/model/task.py], which is not part of the available sources.  The
    specification lists it as the closed enumeration
    Pending, Downloading, Downloaded, PostProcessing, Completed, Failed. *)
Inductive DownloadState : Type :=
| PENDING
| DOWNLOADING
| DOWNLOADED
| POST_PROCESSING
| COMPLETED
| FAILED.

Definition DownloadState_eqb (a b : DownloadState) : bool :=
  match a, b with
  | PENDING, PENDING
  | DOWNLOADING, DOWNLOADING
  | DOWNLOADED, DOWNLOADED
  | POST_PROCESSING, POST_PROCESSING
  | COMPLETED, COMPLETED
  | FAILED, FAILED => true
  | _, _ => false
  end.

(** [@dataclass class StateTransition]: four fields, in declaration order.
    [delay_seconds] is a Python [float]; the constructors only store it. *)
Record StateTransition : Type := mkStateTransition {
  success : bool;
  next_state : option DownloadState;
  delay_seconds : float;
  error_message : option string
}.

(** Field defaults of the dataclass ([= None], [= 0], [= None]). *)
Definition default_next_state : option DownloadState := None.
Definition default_delay_seconds : float := 0%float.
Definition default_error_message : option string := None.

(** [StateTransition.ok], keyword-only argument [next_state], default [None]. *)
Definition ok (next_state : option DownloadState) : StateTransition :=
  {| success := true;
     next_state := next_state;
     delay_seconds := default_delay_seconds;
     error_message := default_error_message |}.

(** [StateTransition.transition(next_state)] delegates to [ok]. *)
Definition transition (next_state : DownloadState) : StateTransition :=
  ok (Some next_state).

(** [StateTransition.poll(state, delay_seconds)] *)
Definition poll (state : DownloadState) (delay_seconds : float)
  : StateTransition :=
  {| success := true;
     next_state := Some state;
     delay_seconds := delay_seconds;
     error_message := default_error_message |}.

(** [StateTransition.fail(error_message)] *)
Definition fail (error_message : string) : StateTransition :=
  {| success := false;
     next_state := default_next_state;
     delay_seconds := default_delay_seconds;
     error_message := Some error_message |}.

(** The values reachable through the semantic constructors. *)
Inductive Constructed : StateTransition -> Prop :=
| Constructed_ok : forall ns, Constructed (ok ns)
| Constructed_transition : forall s, Constructed (transition s)
| Constructed_poll : forall s d, Constructed (poll s d)
| Constructed_fail : forall msg, Constructed (fail msg).

(** Python's [x == 0] on a float: true for [0.0] and [-0.0]. *)
Definition delay_is_zero (d : float) : bool := PrimFloat.eqb d 0%float.

(** A poll that always carries a delay: besides storing [s] and [d], the built
    transition always has a nonzero delay. *)
Definition poll_always_delays (s : DownloadState) (d : float) : Prop :=
  success (poll s d) = true /\
  next_state (poll s d) = Some s /\
  error_message (poll s d) = None /\
  delay_seconds (poll s d) = d /\
  delay_is_zero (delay_seconds (poll s d)) = false.

End Base.

(* ===================================================================== *)
(** * core/rss.py                                                         *)
(* ===================================================================== *)

Module Rss.

(** Modelled from the spec: [AnimeResourceInfo] is declared in
    [core/website/model.py], which is not part of the available sources.
    The fields are the ones the available code reads: [title],
    [download_url] (which may be [None]) and the best-effort metadata
    [anime_name], [episode], [quality]. *)
Record AnimeResourceInfo : Type := mkAnimeResourceInfo {
  title : string;
  download_url : option string;
  anime_name : option string;
  episode : option Z;
  quality : option string
}.

(** Object handles.  The collaborators are objects whose behaviour is
    observed through the environment [Env]; the manager only holds
    references to them. *)
Inductive DownloadManager : Type := DownloadManagerObj (id : nat).
Inductive WebsiteFactory : Type := WebsiteFactoryObj (id : nat).
Inductive WebsiteBase : Type := WebsiteObj (id : nat).

(** [class RSSManager]: the two attributes set by [__init__]. *)
Record RSSManager : Type := mkRSSManager {
  _download_manager : option DownloadManager;
  _factory : WebsiteFactory
}.

(** Outcome of [self._factory.create(url)]: it raises, or returns a
    handler or [None]. *)
Inductive CreateOutcome : Type :=
| CreateRaises (exc : string)
| CreateReturns (handler : option WebsiteBase).

(** One element of the list returned by
    [asyncio.gather( *tasks, return_exceptions=True)]: an exception
    instance, a list of entries, or any other value.  A value that is not
    a list may still be iterable (a tuple, a generator): [elements] is
    what iterating it yields, [None] when it cannot be iterated. *)
Inductive GatherResult : Type :=
| ResException (exc : string)
| ResNotList (repr : string) (elements : option (list AnimeResourceInfo))
| ResList (entries : list AnimeResourceInfo).

(** The exception that escapes a [for] loop over a value that is not
    iterable ([TypeError: ... object is not iterable]). *)
Inductive Raised : Type :=
| NotIterable (repr : string).

(** The coroutine object built by [handler.fetch_feed(url)]; nothing runs
    until it is awaited by [gather]. *)
Inductive Coroutine : Type := CoFetchFeed (handler : WebsiteBase) (url : string).

(** The collaborators as one ingestion cycle observes them:
    [config.rss.urls], the website factory and handlers, the history
    database [db] and the download manager's registry. *)
Record Env : Type := mkEnv {
  config_rss_urls : list string;
  factory_create : WebsiteFactory -> string -> CreateOutcome;
  fetch_feed : WebsiteBase -> string -> GatherResult;
  db_is_downloaded : string -> bool;
  is_downloading : DownloadManager -> AnimeResourceInfo -> bool
}.

(** Log records, one constructor per [logger] call of the module. *)
Inductive LogRecord : Type :=
| WarnCreateHandlerFailed (url exc : string)
| ErrorFetchingRSS (exc : string)
| ErrorUnexpectedResult (repr : string)
| DebugSkipDownloaded (title : string)
| DebugSkipQueued (title : string)
| InfoNewEntries (n : nat)
| DebugNoNewEntries.

(** Observable effects of a cycle, in program order. *)
Inductive Event : Type :=
| EvFactoryCreate (f : WebsiteFactory) (url : string)
| EvFetchFeed (h : WebsiteBase) (url : string)
| EvDbIsDownloaded (title : string)
| EvIsDownloading (dm : DownloadManager) (entry : AnimeResourceInfo)
| EvLog (r : LogRecord).

(** A fetch, a history lookup or a registry lookup. *)
Definition is_io (ev : Event) : bool :=
  match ev with
  | EvFetchFeed _ _ | EvDbIsDownloaded _ | EvIsDownloading _ _ => true
  | EvFactoryCreate _ _ | EvLog _ => false
  end.

(** Program state: the manager object and the trace so far. *)
Record St : Type := mkSt {
  self : RSSManager;
  trace : list Event
}.

(** Reader over [Env], state over [St]. *)
Definition M (A : Type) : Type := Env -> St -> A * St.

Definition ret {A} (a : A) : M A := fun _ st => (a, st).

Definition bind {A B} (c : M A) (k : A -> M B) : M B :=
  fun env st => let (a, st') := c env st in k a env st'.

Notation "x <- c ;; k" := (bind c (fun x => k))
  (at level 61, c at next level, right associativity).
Notation "c ;; k" := (bind c (fun _ => k))
  (at level 61, right associativity).

Definition get_self : M RSSManager := fun _ st => (self st, st).
Definition ask : M Env := fun env st => (env, st).

Definition emit (ev : Event) : M unit :=
  fun _ st => (tt, {| self := self st; trace := trace st ++ [ev] |}).

Definition log (r : LogRecord) : M unit := emit (EvLog r).

(** Truthiness of an [Optional[str]]: [None] and the empty string are
    falsy. *)
Definition truthy (s : option string) : bool :=
  match s with
  | None => false
  | Some s => negb (String.eqb s "")
  end.

(** [RSSManager._get_website_handler] *)
Definition _get_website_handler (url : string) : M (option WebsiteBase) :=
  this <- get_self ;;
  env <- ask ;;
  emit (EvFactoryCreate (_factory this) url) ;;
  match factory_create env (_factory this) url with
  | CreateReturns handler => ret handler
  | CreateRaises e =>
      log (WarnCreateHandlerFailed url e) ;;
      ret None
  end.

(** The [for url in urls] loop of [_build_fetch_tasks]; [tasks] is the
    list built so far. *)
Fixpoint _build_fetch_tasks_loop (urls : list string) (tasks : list Coroutine)
  : M (list Coroutine) :=
  match urls with
  | [] => ret tasks
  | url :: urls' =>
      handler <- _get_website_handler url ;;
      match handler with
      | None => _build_fetch_tasks_loop urls' tasks
      | Some h => _build_fetch_tasks_loop urls' (tasks ++ [CoFetchFeed h url])
      end
  end.

(** [RSSManager._build_fetch_tasks] *)
Definition _build_fetch_tasks (urls : list string) : M (list Coroutine) :=
  _build_fetch_tasks_loop urls [].

(** Awaiting one coroutine under [return_exceptions=True]. *)
Definition await_task (c : Coroutine) : M GatherResult :=
  match c with
  | CoFetchFeed h url =>
      env <- ask ;;
      emit (EvFetchFeed h url) ;;
      ret (fetch_feed env h url)
  end.

(** [asyncio.gather( *tasks, return_exceptions=True)]: one result per
    task, in the order of the tasks.  The fetches overlap in time; the
    trace lists them in task order. *)
Fixpoint gather (tasks : list Coroutine) : M (list GatherResult) :=
  match tasks with
  | [] => ret []
  | c :: tasks' =>
      r <- await_task c ;;
      rs <- gather tasks' ;;
      ret (r :: rs)
  end.

(** [RSSManager._is_valid_feed_result] *)
Definition _is_valid_feed_result (result : GatherResult) : M bool :=
  match result with
  | ResException e =>
      log (ErrorFetchingRSS e) ;;
      ret false
  | ResNotList r _ =>
      log (ErrorUnexpectedResult r) ;;
      ret false
  | ResList _ => ret true
  end.

(** [RSSManager._should_skip_entry] *)
Definition _should_skip_entry (entry : AnimeResourceInfo) : M bool :=
  if negb (truthy (download_url entry)) then ret true
  else
    env <- ask ;;
    emit (EvDbIsDownloaded (title entry)) ;;
    if db_is_downloaded env (title entry) then
      log (DebugSkipDownloaded (title entry)) ;;
      ret true
    else
      this <- get_self ;;
      match _download_manager this with
      | None => ret false
      | Some dm =>
          emit (EvIsDownloading dm entry) ;;
          if is_downloading env dm entry then
            log (DebugSkipQueued (title entry)) ;;
            ret true
          else ret false
      end.

(** The inner [for entry in result] loop of [_collect_new_entries]. *)
Fixpoint _collect_entries_loop (result : list AnimeResourceInfo)
  (new_entries : list AnimeResourceInfo) : M (list AnimeResourceInfo) :=
  match result with
  | [] => ret new_entries
  | entry :: result' =>
      skip <- _should_skip_entry entry ;;
      if skip then _collect_entries_loop result' new_entries
      else _collect_entries_loop result' (new_entries ++ [entry])
  end.

(** The entries a valid result iterates over. *)
Definition entries_of (result : GatherResult) : list AnimeResourceInfo :=
  match result with
  | ResList entries => entries
  | _ => []
  end.

(** What [for entry in result] iterates over, for any result: a list
    yields its entries, another iterable its elements, and an exception
    instance or any other value raises. *)
Definition iterate (result : GatherResult)
  : Raised + list AnimeResourceInfo :=
  match result with
  | ResList entries => inr entries
  | ResNotList _ (Some elements) => inr elements
  | ResNotList repr None => inl (NotIterable repr)
  | ResException exc => inl (NotIterable exc)
  end.

(** The outer [for result in results] loop of [_collect_new_entries];
    [inl] is an exception that escapes the loop. *)
Fixpoint _collect_results_loop (results : list GatherResult)
  (new_entries : list AnimeResourceInfo)
  : M (Raised + list AnimeResourceInfo) :=
  match results with
  | [] => ret (inr new_entries)
  | result :: results' =>
      valid <- _is_valid_feed_result result ;;
      if negb valid then _collect_results_loop results' new_entries
      else
        match iterate result with
        | inl exc => ret (inl exc)
        | inr entries =>
            new_entries' <- _collect_entries_loop entries new_entries ;;
            _collect_results_loop results' new_entries'
        end
  end.

(** [RSSManager._collect_new_entries] *)
Definition _collect_new_entries (results : list GatherResult)
  : M (Raised + list AnimeResourceInfo) :=
  _collect_results_loop results [].

(** [RSSManager.check_update]; [inl] is an exception that escapes the
    call, [inr] the list it returns. *)
Definition check_update : M (Raised + list AnimeResourceInfo) :=
  env <- ask ;;
  let urls := config_rss_urls env in
  match urls with
  | [] => ret (inr [])
  | _ :: _ =>
      tasks <- _build_fetch_tasks urls ;;
      match tasks with
      | [] => ret (inr [])
      | _ :: _ =>
          results <- gather tasks ;;
          collected <- _collect_new_entries results ;;
          match collected with
          | inl exc => ret (inl exc)
          | inr new_entries =>
              match new_entries with
              | _ :: _ => log (InfoNewEntries (List.length new_entries))
              | [] => log DebugNoNewEntries
              end ;;
              ret (inr new_entries)
          end
      end
  end.

(** ** Vocabulary for the statements about a cycle *)

(** The state after performing the events [evs]. *)
Definition add_events (st : St) (evs : list Event) : St :=
  {| self := self st; trace := trace st ++ evs |}.

(** The same collaborators with another configured URL list. *)
Definition with_urls (env : Env) (urls : list string) : Env :=
  {| config_rss_urls := urls;
     factory_create := factory_create env;
     fetch_feed := fetch_feed env;
     db_is_downloaded := db_is_downloaded env;
     is_downloading := is_downloading env |}.

(** Filter (a): the entry carries a download reference. *)
Definition has_download_reference (e : AnimeResourceInfo) : bool :=
  truthy (download_url e).

(** Filter (b): the history oracle reports the title obtained. *)
Definition obtained (env : Env) (e : AnimeResourceInfo) : bool :=
  db_is_downloaded env (title e).

(** Filter (c): the manager's registry tracks the entry. *)
Definition tracked (env : Env) (this : RSSManager) (e : AnimeResourceInfo)
  : bool :=
  match _download_manager this with
  | Some dm => is_downloading env dm e
  | None => false
  end.

(** An entry survives when none of the three filters discards it. *)
Definition survives (env : Env) (this : RSSManager) (e : AnimeResourceInfo)
  : bool :=
  has_download_reference e && negb (obtained env e) && negb (tracked env this e).

(** The handler the manager obtains for a URL, if any. *)
Definition handler_of (env : Env) (this : RSSManager) (url : string)
  : option WebsiteBase :=
  match factory_create env (_factory this) url with
  | CreateReturns handler => handler
  | CreateRaises _ => None
  end.

(** A source fails when no handler can be created for it, or its fetch
    raises, or its fetch result is not a list. *)
Definition source_fails (env : Env) (this : RSSManager) (url : string) : bool :=
  match handler_of env this url with
  | None => true
  | Some h =>
      match fetch_feed env h url with
      | ResList _ => false
      | ResException _ | ResNotList _ _ => true
      end
  end.

(** The entries of a successfully fetched source ([[]] for a failing
    one). *)
Definition source_entries (env : Env) (this : RSSManager) (url : string)
  : list AnimeResourceInfo :=
  match handler_of env this url with
  | None => []
  | Some h => entries_of (fetch_feed env h url)
  end.

(** Every entry across all successfully fetched results, in feed order. *)
Definition fetched_entries (env : Env) (this : RSSManager)
  : list AnimeResourceInfo :=
  flat_map (source_entries env this) (config_rss_urls env).

(** The lookups among a list of events, in order. *)
Definition lookups (evs : list Event) : list Event := filter is_io evs.

(** Events among which there is no fetch and no lookup. *)
Definition quiet (evs : list Event) : Prop :=
  Forall (fun ev => is_io ev = false) evs.

(** The lookups the filters are expected to perform for one entry: none
    without a download reference; otherwise the history oracle, and the
    registry only when the oracle does not report the title obtained. *)
Definition filter_lookups (env : Env) (this : RSSManager)
  (e : AnimeResourceInfo) : list Event :=
  if has_download_reference e then
    EvDbIsDownloaded (title e) ::
    (if obtained env e then []
     else match _download_manager this with
          | Some dm => [EvIsDownloading dm e]
          | None => []
          end)
  else [].

(** The coroutine built for one URL, if a handler exists. *)
Definition fetch_task (env : Env) (this : RSSManager) (url : string)
  : list Coroutine :=
  match handler_of env this url with
  | Some h => [CoFetchFeed h url]
  | None => []
  end.

(** What awaiting a coroutine yields. *)
Definition task_result (env : Env) (c : Coroutine) : GatherResult :=
  match c with
  | CoFetchFeed h url => fetch_feed env h url
  end.

(** [isinstance(result, list)] *)
Definition is_list (result : GatherResult) : bool :=
  match result with
  | ResList _ => true
  | ResException _ | ResNotList _ _ => false
  end.

(** Two environments that present the same feeds: same configured URLs,
    same handlers, same fetch results. *)
Definition same_feeds (env1 env2 : Env) : Prop :=
  config_rss_urls env2 = config_rss_urls env1 /\
  (forall f url, factory_create env2 f url = factory_create env1 f url) /\
  (forall h url, fetch_feed env2 h url = fetch_feed env1 h url).

End Rss.

(* ===================================================================== *)
(** * assistant/telegram_assistant.py                                     *)
(* ===================================================================== *)

Module Telegram.

(** One history message, the dict [{"role": ..., "content": ...}]. *)
Record Message : Type := mkMessage {
  role : string;
  content : string
}.

(** Python's [l[start:]] for an integer [start]: a negative index counts
    from the end, and both ends are clamped to the list. *)
Definition slice_from {A} (l : list A) (start : Z) : list A :=
  let n := Z.of_nat (List.length l) in
  let lo := if (start <? 0)%Z then Z.max (n + start) 0 else Z.min start n in
  skipn (Z.to_nat lo) l.

(** [TelegramAssistant._append_history].  [assistant_max_history] is
    [self.assistant.max_history]; the function returns the contents of
    the list object [history] after the in-place update. *)
Definition _append_history (assistant_max_history : Z)
  (history : list Message) (user_text response : string) : list Message :=
  let history := (history ++ [mkMessage "user" user_text])%list in
  let history := (history ++ [mkMessage "assistant" response])%list in
  let max_history := (assistant_max_history * 2)%Z in
  if (Z.of_nat (List.length history) >? max_history)%Z
  then slice_from history (- max_history)
  else history.

(** The turn appended by one call. *)
Definition turn (user_text response : string) : list Message :=
  [mkMessage "user" user_text; mkMessage "assistant" response].

(** Whether the call has to trim. *)
Definition trims (assistant_max_history : Z) (history : list Message) : bool :=
  (Z.of_nat (List.length history + 2) >? assistant_max_history * 2)%Z.

End Telegram.

(* ===================================================================== *)
(** * A concrete deployment used to exercise the statements               *)
(* ===================================================================== *)

Module Scenario.
Import Rss.

Definition ep4 : AnimeResourceInfo :=
  mkAnimeResourceInfo "Show S01E04" (Some "magnet:def") (Some "Show") (Some 4%Z) None.
Definition ep5 : AnimeResourceInfo :=
  mkAnimeResourceInfo "Show S01E05" (Some "magnet:abc") (Some "Show") (Some 5%Z) None.
Definition ep6 : AnimeResourceInfo :=
  mkAnimeResourceInfo "Show S01E06" None (Some "Show") (Some 6%Z) None.
Definition ep7 : AnimeResourceInfo :=
  mkAnimeResourceInfo "Show S01E07" (Some "") None None None.
Definition ep8 : AnimeResourceInfo :=
  mkAnimeResourceInfo "Show S01E08" (Some "magnet:ghi") None None None.
Definition ep9 : AnimeResourceInfo :=
  mkAnimeResourceInfo "Show S01E09" (Some "magnet:jkl") None None None.

Definition good_url : string := "https://mikan.example/RSS/MyBangumi".
Definition down_url : string := "https://dmhy.example/topics/rss/rss.xml".
Definition odd_url : string := "https://acg.example/.xml".
Definition unknown_url : string := "ftp://nowhere.example/feed".

Definition mikan : WebsiteBase := WebsiteObj 0.
Definition dmhy : WebsiteBase := WebsiteObj 1.
Definition acgrip : WebsiteBase := WebsiteObj 2.

Definition manager : RSSManager :=
  {| _download_manager := Some (DownloadManagerObj 0);
     _factory := WebsiteFactoryObj 0 |}.

Definition create (_ : WebsiteFactory) (url : string) : CreateOutcome :=
  if String.eqb url good_url then CreateReturns (Some mikan)
  else if String.eqb url down_url then CreateReturns (Some dmhy)
  else if String.eqb url odd_url then CreateReturns (Some acgrip)
  else CreateRaises "unsupported website".

Definition fetch (h : WebsiteBase) (_ : string) : GatherResult :=
  match h with
  | WebsiteObj 0 => ResList [ep4; ep5; ep6; ep7; ep8]
  | WebsiteObj 1 => ResException "connection reset"
  | WebsiteObj _ => ResNotList "(ep9,)" (Some [ep9])
  end.

(** First cycle: episode 4 is in the history, episode 8 is in flight. *)
Definition env_before : Env :=
  {| config_rss_urls := [down_url; good_url; unknown_url; odd_url];
     factory_create := create;
     fetch_feed := fetch;
     db_is_downloaded := fun t => String.eqb t "Show S01E04";
     is_downloading := fun _ e => String.eqb (title e) "Show S01E08" |}.

(** Second cycle: episode 5 has been registered in the meantime. *)
Definition env_after : Env :=
  {| config_rss_urls := [down_url; good_url; unknown_url; odd_url];
     factory_create := create;
     fetch_feed := fetch;
     db_is_downloaded := fun t => String.eqb t "Show S01E04";
     is_downloading := fun _ e =>
       String.eqb (title e) "Show S01E08" || String.eqb (title e) "Show S01E05" |}.

Definition st0 : St := {| self := manager; trace := [] |}.

End Scenario.

(* ===================================================================== *)
(** * Vocabulary for the trace of an ingestion cycle                      *)
(* ===================================================================== *)

Module RssTrace.
Import Rss.

(** The event left by awaiting a coroutine. *)
Definition fetch_event (c : Coroutine) : Event :=
  match c with
  | CoFetchFeed h url => EvFetchFeed h url
  end.

(** The fetches and lookups of a whole cycle: one fetch per URL that has
    a handler, in configuration order, then the lookups of every fetched
    entry, in feed order. *)
Definition cycle_lookups (env : Env) (this : RSSManager) : list Event :=
  (map fetch_event (flat_map (fetch_task env this) (config_rss_urls env))
   ++ flat_map (filter_lookups env this) (fetched_entries env this))%list.

(** The closing log record of a cycle that reached its end. *)
Definition summary_log (new_entries : list AnimeResourceInfo) : Event :=
  match new_entries with
  | _ :: _ => EvLog (InfoNewEntries (List.length new_entries))
  | [] => EvLog DebugNoNewEntries
  end.

End RssTrace.

(* ===================================================================== *)
(** * Python values decoded from JSON                                     *)
(* ===================================================================== *)

Module Py.

(** The values [json()] produces for the Telegram Bot API: [None], booleans,
    integers, strings, lists and dicts (a dict as the list of its items,
    the first binding of a key being the one [get] finds).  Numbers with a
    fractional part do not occur among the fields read by the code. *)
#[warnings="-register-all"]
Inductive PyVal : Type :=
| PyNone
| PyBool (b : bool)
| PyInt (z : Z)
| PyStr (s : string)
| PyList (items : list PyVal)
| PyDict (items : list (string * PyVal)).

(** The exceptions the modelled operations can raise. *)
Inductive PyExc : Type :=
| AttributeError
| TypeError.

(** [bool(v)] *)
Definition truthy (v : PyVal) : bool :=
  match v with
  | PyNone => false
  | PyBool b => b
  | PyInt z => negb (z =? 0)%Z
  | PyStr s => negb (String.eqb s "")
  | PyList items => match items with [] => false | _ :: _ => true end
  | PyDict items => match items with [] => false | _ :: _ => true end
  end.

(** [d.get(key, default)] on the items of a dict. *)
Fixpoint dict_get (d : list (string * PyVal)) (key : string) (default : PyVal)
  : PyVal :=
  match d with
  | [] => default
  | (k, v) :: d' => if String.eqb k key then v else dict_get d' key default
  end.

(** [v.get(key, default)]: only a dict has the method. *)
Definition get (v : PyVal) (key : string) (default : PyVal) : PyExc + PyVal :=
  match v with
  | PyDict d => inr (dict_get d key default)
  | _ => inl AttributeError
  end.

(** [v + 1]: defined on integers and booleans ([True + 1 == 2]). *)
Definition add_one (v : PyVal) : PyExc + Z :=
  match v with
  | PyInt z => inr (z + 1)%Z
  | PyBool b => inr ((if b then 1 else 0) + 1)%Z
  | _ => inl TypeError
  end.

End Py.

(* ===================================================================== *)
(** * assistant/telegram_assistant.py: the bot object and its handlers    *)
(* ===================================================================== *)

Module Bot.
Import Py.
Import Telegram.

(** A dict keyed by integers, as the list of its items (first binding of
    a key wins). *)
Definition IntDict (V : Type) : Type := list (Z * V).

(** [d.get(key)] *)
Fixpoint int_get {V} (d : IntDict V) (key : Z) : option V :=
  match d with
  | [] => None
  | (k, v) :: d' => if (k =? key)%Z then Some v else int_get d' key
  end.

(** [d.pop(key, None)]: the dict without the key. *)
Definition int_pop {V} (d : IntDict V) (key : Z) : IntDict V :=
  filter (fun kv => negb (fst kv =? key)%Z) d.

(** [d[key] = value]: replaces the binding in place, or appends one. *)
Fixpoint int_set {V} (d : IntDict V) (key : Z) (value : V) : IntDict V :=
  match d with
  | [] => [(key, value)]
  | (k, v) :: d' =>
      if (k =? key)%Z then (key, value) :: d'
      else (k, v) :: int_set d' key value
  end.

(** A list object is identified by its address; [user_histories] holds
    addresses, and [_append_history] updates the object in place. *)
Definition Addr : Type := nat.

Record Heap : Type := mkHeap {
  cells : Addr -> list Message;
  next_addr : Addr
}.

Definition deref (h : Heap) (a : Addr) : list Message := cells h a.

(** A new list object holding [l]. *)
Definition alloc (h : Heap) (l : list Message) : Addr * Heap :=
  (next_addr h,
   {| cells := fun a => if Nat.eqb a (next_addr h) then l else cells h a;
      next_addr := S (next_addr h) |}).

(** In-place replacement of the contents of a list object. *)
Definition store (h : Heap) (a : Addr) (l : list Message) : Heap :=
  {| cells := fun a' => if Nat.eqb a' a then l else cells h a';
     next_addr := next_addr h |}.

(** [class TelegramAssistant]: the attributes the handlers read or write.
    [max_history] is [self.assistant.max_history]. *)
Record TelegramAssistant : Type := mkTelegramAssistant {
  allowed_users : list Z;
  user_histories : IntDict Addr;
  status_messages : IntDict PyVal;
  update_offset : Z;
  max_history : Z
}.

(** The three Bot API calls the handlers make. *)
Inductive Request : Type :=
| SendMessage (chat_id : Z) (text : string)
| EditMessageText (chat_id : Z) (message_id : PyVal) (text : string)
| DeleteMessage (chat_id : Z) (message_id : PyVal).

(** What [session.post] followed by [raise_for_status] gives: an
    exception, or a response whose body may or may not parse as JSON. *)
Inductive HttpReply : Type :=
| HttpRaises (exc : string)
| HttpOk (body : option PyVal).

Inductive BotLog : Type :=
| ErrorSendFailed (chat_id : Z)
| ErrorEditFailed (chat_id : Z) (message_id : PyVal)
| WarnUnauthorized (user_id : option Z).

Inductive BotEvent : Type :=
| EvPost (r : Request)
| EvBotLog (l : BotLog).

(** The Telegram servers: the reply to a request may depend on everything
    that happened before it. *)
Record Net : Type := mkNet {
  http_post : list BotEvent -> Request -> HttpReply
}.

Record BotSt : Type := mkBotSt {
  this : TelegramAssistant;
  lists : Heap;
  outbox : list BotEvent
}.

Definition B (A : Type) : Type := Net -> BotSt -> A * BotSt.

Definition ret {A} (a : A) : B A := fun _ st => (a, st).

Definition bind {A C} (c : B A) (k : A -> B C) : B C :=
  fun net st => let (a, st') := c net st in k a net st'.

Notation "x <- c ;; k" := (bind c (fun x => k))
  (at level 61, c at next level, right associativity).
Notation "c ;; k" := (bind c (fun _ => k))
  (at level 61, right associativity).

Definition get_this : B TelegramAssistant := fun _ st => (this st, st).

Definition put_this (t : TelegramAssistant) : B unit :=
  fun _ st => (tt, {| this := t; lists := lists st; outbox := outbox st |}).

Definition get_lists : B Heap := fun _ st => (lists st, st).

Definition put_lists (h : Heap) : B unit :=
  fun _ st => (tt, {| this := this st; lists := h; outbox := outbox st |}).

Definition emit (ev : BotEvent) : B unit :=
  fun _ st =>
    (tt, {| this := this st; lists := lists st; outbox := outbox st ++ [ev] |}).

(** Performing a request: it is recorded, and the servers reply. *)
Definition post (r : Request) : B HttpReply :=
  fun net st =>
    (http_post net (outbox st) r,
     {| this := this st; lists := lists st;
        outbox := outbox st ++ [EvPost r] |}).

Definition UNAUTHORIZED_MESSAGE : string :=
  "❌ You are not authorized to use this bot".
Definition HISTORY_CLEARED_MESSAGE : string :=
  "✅ Conversation history cleared".

Definition quote : string := String (Ascii.ascii_of_nat 34) EmptyString.

Definition WELCOME_MESSAGE : string :=
  "👋 Hello! I'm an anime resource download assistant.

I can help you:
1️⃣ Download anime resources from RSS feeds
2️⃣ Search for resources on mikan.moe, dmhy, acg.rip and other websites
3️⃣ View search results and decide what to download

Usage examples:
- " ++ quote ++ "Search for Frieren" ++ quote ++ "
- " ++ quote ++ "Search for Oshi no Ko on mikan" ++ quote ++ "
- " ++ quote ++ "Download this RSS: https://mikan.moe/RSS/..." ++ quote ++ "

Note: I will respond in the same language you use to communicate with me!

Start chatting with me!".

(** The [try] block of [send_message] on a reply: the value it returns,
    or [None] when it raises (the request failed, the body is not JSON,
    or [get] is called on something that is not a dict). *)
Definition send_message_try (reply : HttpReply) : option PyVal :=
  match reply with
  | HttpRaises _ => None
  | HttpOk None => None
  | HttpOk (Some data) =>
      match get data "ok" PyNone with
      | inl _ => None
      | inr ok =>
          if truthy ok then
            match get data "result" (PyDict []) with
            | inl _ => None
            | inr result =>
                match get result "message_id" (PyInt 0) with
                | inl _ => None
                | inr message_id => Some message_id
                end
            end
          else Some (PyInt 0)
      end
  end.

(** [TelegramAssistant.send_message]: [except Exception] logs and
    returns [0]. *)
Definition send_message (chat_id : Z) (text : string) : B PyVal :=
  reply <- post (SendMessage chat_id text) ;;
  match send_message_try reply with
  | Some v => ret v
  | None =>
      emit (EvBotLog (ErrorSendFailed chat_id)) ;;
      ret (PyInt 0)
  end.

(** [TelegramAssistant.edit_message] *)
Definition edit_message (chat_id : Z) (message_id : PyVal) (text : string)
  : B bool :=
  reply <- post (EditMessageText chat_id message_id text) ;;
  match reply with
  | HttpOk _ => ret true
  | HttpRaises _ =>
      emit (EvBotLog (ErrorEditFailed chat_id message_id)) ;;
      ret false
  end.

(** [TelegramAssistant._delete_message] *)
Definition _delete_message (chat_id : Z) (message_id : PyVal) : B bool :=
  reply <- post (DeleteMessage chat_id message_id) ;;
  match reply with
  | HttpOk _ => ret true
  | HttpRaises _ => ret false
  end.

(** [TelegramAssistant._update_polling_offset], on the items of the
    update and the current offset; the result is the new offset. *)
Definition _update_polling_offset (update : list (string * PyVal))
  (offset : Z) : PyExc + Z :=
  let update_id := dict_get update "update_id" PyNone in
  if truthy update_id then
    match add_one update_id with
    | inr n => inr (Z.max offset n)
    | inl e => inl e
    end
  else inr offset.

(** [TelegramAssistant._extract_message_context] *)
Definition _extract_message_context (update : list (string * PyVal))
  : PyExc + option (PyVal * PyVal * PyVal) :=
  let message := dict_get update "message" PyNone in
  if negb (truthy message) then inr None
  else
    match get message "chat" (PyDict []) with
    | inl e => inl e
    | inr chat =>
    match get chat "id" PyNone with
    | inl e => inl e
    | inr chat_id =>
    match get message "from" (PyDict []) with
    | inl e => inl e
    | inr from =>
    match get from "id" PyNone with
    | inl e => inl e
    | inr user_id =>
    match get message "text" PyNone with
    | inl e => inl e
    | inr text =>
        if negb (truthy chat_id) || negb (truthy text) then inr None
        else inr (Some (chat_id, user_id, text))
    end end end end end.

(** [user_id in self.allowed_users] for an [Optional[int]]. *)
Definition in_allowed (allowed : list Z) (user_id : option Z) : bool :=
  match user_id with
  | None => false
  | Some u => existsb (fun a => (a =? u)%Z) allowed
  end.

(** [TelegramAssistant._authorize_user] *)
Definition _authorize_user (chat_id : Z) (user_id : option Z) : B bool :=
  self <- get_this ;;
  if match allowed_users self with [] => true | _ :: _ => false end
     || in_allowed (allowed_users self) user_id
  then ret true
  else
    emit (EvBotLog (WarnUnauthorized user_id)) ;;
    send_message chat_id UNAUTHORIZED_MESSAGE ;;
    ret false.

(** [TelegramAssistant._handle_command] *)
Definition _handle_command (chat_id : Z) (user_id : option Z) (text : string)
  : B bool :=
  if String.eqb text "/start" then
    send_message chat_id WELCOME_MESSAGE ;;
    ret true
  else if String.eqb text "/clear" then
    match user_id with
    | Some u =>
        self <- get_this ;;
        put_this {| allowed_users := allowed_users self;
                    user_histories := int_pop (user_histories self) u;
                    status_messages := status_messages self;
                    update_offset := update_offset self;
                    max_history := max_history self |}
    | None => ret tt
    end ;;
    send_message chat_id HISTORY_CLEARED_MESSAGE ;;
    ret true
  else ret false.

(** [TelegramAssistant._get_or_create_history]: the list object to use.
    Either way the expression [[]] creates a new empty list.  Without a
    user id that list is returned and nothing else refers to it; with
    one, [setdefault] returns the list already stored for the user, or
    stores the new list and returns it. *)
Definition _get_or_create_history (user_id : option Z) : B Addr :=
  h <- get_lists ;;
  let (fresh, h') := alloc h [] in
  put_lists h' ;;
  match user_id with
  | None => ret fresh
  | Some u =>
      self <- get_this ;;
      match int_get (user_histories self) u with
      | Some a => ret a
      | None =>
          put_this {| allowed_users := allowed_users self;
                      user_histories := int_set (user_histories self) u fresh;
                      status_messages := status_messages self;
                      update_offset := update_offset self;
                      max_history := max_history self |} ;;
          ret fresh
      end
  end.

(** [TelegramAssistant._append_history] on a list object: its contents
    become what [Telegram._append_history] computes from them. *)
Definition _append_history_at (history : Addr) (user_text response : string)
  : B unit :=
  self <- get_this ;;
  h <- get_lists ;;
  put_lists
    (store h history
       (_append_history (max_history self) (deref h history)
          user_text response)).

(** [d.get(key)] and [d.pop(key, None)] as Python values. *)
Definition or_none (v : option PyVal) : PyVal :=
  match v with
  | Some v => v
  | None => PyNone
  end.

(** [TelegramAssistant._upsert_status_message] *)
Definition _upsert_status_message (chat_id : Z) (status_text : string)
  : B unit :=
  self <- get_this ;;
  let message_id := or_none (int_get (status_messages self) chat_id) in
  if truthy message_id then
    edit_message chat_id message_id status_text ;;
    ret tt
  else
    new_message_id <- send_message chat_id status_text ;;
    if truthy new_message_id then
      self' <- get_this ;;
      put_this {| allowed_users := allowed_users self';
                  user_histories := user_histories self';
                  status_messages :=
                    int_set (status_messages self') chat_id new_message_id;
                  update_offset := update_offset self';
                  max_history := max_history self' |}
    else ret tt.

(** [TelegramAssistant._clear_status_message] *)
Definition _clear_status_message (chat_id : Z) : B unit :=
  self <- get_this ;;
  let message_id := or_none (int_get (status_messages self) chat_id) in
  put_this {| allowed_users := allowed_users self;
              user_histories := user_histories self;
              status_messages := int_pop (status_messages self) chat_id;
              update_offset := update_offset self;
              max_history := max_history self |} ;;
  if truthy message_id then
    _delete_message chat_id message_id ;;
    ret tt
  else ret tt.

(** ** Vocabulary for the statements about the bot *)

(** The state after the events [evs], the object and the lists being
    replaced by [t] and [h]. *)
Definition after (st : BotSt) (t : TelegramAssistant) (h : Heap)
  (evs : list BotEvent) : BotSt :=
  {| this := t; lists := h; outbox := outbox st ++ evs |}.

(** The object with another [status_messages] dict. *)
Definition with_status (t : TelegramAssistant) (d : IntDict PyVal)
  : TelegramAssistant :=
  {| allowed_users := allowed_users t;
     user_histories := user_histories t;
     status_messages := d;
     update_offset := update_offset t;
     max_history := max_history t |}.

(** Recording one turn of a user: the list object is looked up or
    created, then extended in place. *)
Definition remember_turn (user_id : option Z) (user_text response : string)
  : B unit :=
  history <- _get_or_create_history user_id ;;
  _append_history_at history user_text response.

(** The fields of the bot object other than [status_messages]. *)
Definition same_but_status (t t' : TelegramAssistant) : Prop :=
  allowed_users t' = allowed_users t /\
  user_histories t' = user_histories t /\
  update_offset t' = update_offset t /\
  max_history t' = max_history t.

(** The value [send_message] returns in a given situation. *)
Definition sent_value (net : Net) (st : BotSt) (chat_id : Z) (text : string)
  : PyVal :=
  match send_message_try (http_post net (outbox st) (SendMessage chat_id text))
  with
  | Some v => v
  | None => PyInt 0
  end.

(** The requests among a list of events, in order. *)
Definition requests (evs : list BotEvent) : list Request :=
  flat_map (fun ev => match ev with EvPost r => [r] | EvBotLog _ => [] end) evs.

(** The history stored for a user, if any. *)
Definition history_of (st : BotSt) (u : Z) : option (list Message) :=
  match int_get (user_histories (this st)) u with
  | Some a => Some (deref (lists st) a)
  | None => None
  end.

(** Every stored history is an allocated list object. *)
Definition histories_allocated (st : BotSt) : Prop :=
  forall u a, int_get (user_histories (this st)) u = Some a ->
              a < next_addr (lists st).

(** Distinct users never share a list object. *)
Definition histories_separate (st : BotSt) : Prop :=
  forall u1 u2 a,
    int_get (user_histories (this st)) u1 = Some a ->
    int_get (user_histories (this st)) u2 = Some a ->
    u1 = u2.

(** Every stored history respects the limit of [2 * max_history]. *)
Definition histories_bounded (st : BotSt) : Prop :=
  forall u l, history_of st u = Some l ->
              (Z.of_nat (List.length l) <= 2 * max_history (this st))%Z.

(** No chat is tracked with a falsy status message id. *)
Definition status_ids_truthy (d : IntDict PyVal) : Prop :=
  forall chat id, int_get d chat = Some id -> truthy id = true.

(** One step of status bookkeeping. *)
Inductive StatusOp : Type :=
| Upsert (chat_id : Z) (status_text : string)
| Clear (chat_id : Z).

Definition run_status_op (op : StatusOp) : B unit :=
  match op with
  | Upsert chat_id status_text => _upsert_status_message chat_id status_text
  | Clear chat_id => _clear_status_message chat_id
  end.

Fixpoint run_status_ops (ops : list StatusOp) : B unit :=
  match ops with
  | [] => ret tt
  | op :: ops' => run_status_op op ;; run_status_ops ops'
  end.

(** Applying [_update_polling_offset] to a batch of updates in order. *)
Fixpoint poll_offsets (updates : list (list (string * PyVal))) (offset : Z)
  : PyExc + Z :=
  match updates with
  | [] => inr offset
  | update :: updates' =>
      match _update_polling_offset update offset with
      | inr offset' => poll_offsets updates' offset'
      | inl e => inl e
      end
  end.

End Bot.

(* ===================================================================== *)
(** * assistant/tools/search_anime.py                                     *)
(* ===================================================================== *)

Module Search.

Definition AnimeResourceInfo : Type := Rss.AnimeResourceInfo.
Definition WebsiteBase : Type := Rss.WebsiteBase.
Definition CreateOutcome : Type := Rss.CreateOutcome.

(** [SearchResult] is declared in [assistant/model.py], which is not part
    of the available sources; the fields are the keyword arguments of the
    one call that builds it. *)
Record SearchResult : Type := mkSearchResult {
  title : string;
  download_url : string;
  is_downloaded : bool;
  anime_name : option string;
  episode : option Z;
  quality : option string
}.

(** Awaiting [handler.fetch_feed(search_url)] directly: it raises,
    returns [None], or returns its list. *)
Inductive FetchOutcome : Type :=
| FetchRaises (exc : string)
| FetchReturnsNone
| FetchReturns (entries : list AnimeResourceInfo).

(** The collaborators of the tool: [urllib.parse.quote_plus], a new
    [WebsiteFactory], the handlers and the history database (whose
    lookup is taken not to raise, as in the ingestion cycle). *)
Record SearchEnv : Type := mkSearchEnv {
  quote_plus : string -> string;
  create : string -> CreateOutcome;
  fetch : WebsiteBase -> string -> FetchOutcome;
  db_is_downloaded : string -> bool
}.

Inductive SearchLog : Type :=
| InfoSearching (anime_name website : string)
| ErrorUnsupportedWebsite (website : string)
| ErrorCreateHandler (search_url : string)
| InfoFound (n : nat)
| ExceptionSearching (anime_name website : string).

Inductive SearchEvent : Type :=
| SvCreate (search_url : string)
| SvFetch (h : WebsiteBase) (search_url : string)
| SvIsDownloaded (title : string)
| SvLog (l : SearchLog).

(** Reader over the collaborators, writer of the events. *)
Definition S (A : Type) : Type :=
  SearchEnv -> list SearchEvent -> A * list SearchEvent.

Definition ret {A} (a : A) : S A := fun _ tr => (a, tr).

Definition bind {A C} (c : S A) (k : A -> S C) : S C :=
  fun env tr => let (a, tr') := c env tr in k a env tr'.

Notation "x <- c ;; k" := (bind c (fun x => k))
  (at level 61, c at next level, right associativity).
Notation "c ;; k" := (bind c (fun _ => k))
  (at level 61, right associativity).

Definition ask : S SearchEnv := fun env tr => (env, tr).

Definition emit (ev : SearchEvent) : S unit :=
  fun _ tr => (tt, (tr ++ [ev])%list).

Definition log (l : SearchLog) : S unit := emit (SvLog l).

Definition nl : string := String (Ascii.ascii_of_nat 10) EmptyString.

(** [str(n)] for a natural number. *)
Definition string_of_nat (n : nat) : string :=
  NilEmpty.string_of_uint (Nat.to_uint n).

(** [SearchAnimeTool._build_search_url] *)
Definition _build_search_url (env : SearchEnv) (anime_name website : string)
  : option string :=
  let encoded_name := quote_plus env anime_name in
  if String.eqb website "mikan" then
    Some ("https://mikanani.me/RSS/Search?searchstr=" ++ encoded_name)
  else if String.eqb website "dmhy" then
    Some ("https://dmhy.org/topics/rss/rss.xml?keyword=" ++ encoded_name)
  else if String.eqb website "acgrip" then
    Some ("https://acg.rip/.xml?term=" ++ encoded_name)
  else None.

(** [SearchAnimeTool._fetch_entries]: [inl] when the factory or the fetch
    raises, [inr None] when no handler is created or the fetch returns
    [None]. *)
Definition _fetch_entries (search_url : string)
  : S (string + option (list AnimeResourceInfo)) :=
  env <- ask ;;
  emit (SvCreate search_url) ;;
  match create env search_url with
  | Rss.CreateRaises exc => ret (inl exc)
  | Rss.CreateReturns None => ret (inr None)
  | Rss.CreateReturns (Some handler) =>
      emit (SvFetch handler search_url) ;;
      match fetch env handler search_url with
      | FetchRaises exc => ret (inl exc)
      | FetchReturnsNone => ret (inr None)
      | FetchReturns entries => ret (inr (Some entries))
      end
  end.

(** [entry.download_url or ""] *)
Definition or_empty (s : option string) : string :=
  if Rss.truthy s then match s with Some s => s | None => "" end else "".

(** The loop of [_build_search_results]; [results] is the list built so
    far. *)
Fixpoint _build_search_results_loop (entries : list AnimeResourceInfo)
  (results : list SearchResult) : S (list SearchResult) :=
  match entries with
  | [] => ret results
  | entry :: entries' =>
      env <- ask ;;
      emit (SvIsDownloaded (Rss.title entry)) ;;
      let is_downloaded := db_is_downloaded env (Rss.title entry) in
      _build_search_results_loop entries'
        (results ++
         [{| title := Rss.title entry;
             download_url := or_empty (Rss.download_url entry);
             is_downloaded := is_downloaded;
             anime_name := Rss.anime_name entry;
             episode := Rss.episode entry;
             quality := Rss.quality entry |}])
  end.

(** [SearchAnimeTool._build_search_results] *)
Definition _build_search_results (entries : list AnimeResourceInfo)
  : S (list SearchResult) :=
  _build_search_results_loop entries [].

(** [SearchAnimeTool._split_results] *)
Definition _split_results (results : list SearchResult)
  : list SearchResult * list SearchResult :=
  let downloaded := filter (fun result => is_downloaded result) results in
  let new_resources :=
    filter (fun result => negb (is_downloaded result)) results in
  (downloaded, new_resources).

(** The [for idx, resource in enumerate(downloaded[:10], 1)] loop of
    [_format_downloaded_resources]. *)
Fixpoint format_downloaded_loop (resources : list SearchResult) (idx : nat)
  (message : string) : string :=
  match resources with
  | [] => message
  | resource :: resources' =>
      let message :=
        message ++ "  " ++ string_of_nat idx ++ ". " ++ title resource ++ nl in
      let message :=
        if Rss.truthy (quality resource)
        then message ++ "     Quality: " ++ or_empty (quality resource) ++ nl
        else message in
      format_downloaded_loop resources' (Datatypes.S idx) message
  end.

(** [SearchAnimeTool._format_downloaded_resources] *)
Definition _format_downloaded_resources (downloaded : list SearchResult)
  : string :=
  let message :=
    "📦 Already Downloaded (" ++ string_of_nat (List.length downloaded)
    ++ " resources):" ++ nl in
  let message := format_downloaded_loop (firstn 10 downloaded) 1 message in
  let message :=
    if Nat.ltb 10 (List.length downloaded)
    then message ++ "  ...and " ++ string_of_nat (List.length downloaded - 10)
         ++ " more" ++ nl
    else message in
  message ++ nl ++ "⚠️ These resources are already downloaded, "
  ++ "do NOT download them again!" ++ nl ++ nl.

(** The loop of [_format_new_resources]. *)
Fixpoint format_new_loop (resources : list SearchResult) (idx : nat)
  (message : string) : string :=
  match resources with
  | [] => message
  | resource :: resources' =>
      let message :=
        message ++ "  " ++ string_of_nat idx ++ ". " ++ title resource ++ nl in
      let message :=
        if Rss.truthy (quality resource)
        then message ++ "     Quality: " ++ or_empty (quality resource) ++ nl
        else message in
      let message :=
        message ++ "     Download URL: " ++ download_url resource ++ nl ++ nl in
      format_new_loop resources' (Datatypes.S idx) message
  end.

(** [SearchAnimeTool._format_new_resources] *)
Definition _format_new_resources (new_resources : list SearchResult)
  : string :=
  let message :=
    "🆕 New Resources (" ++ string_of_nat (List.length new_resources)
    ++ " available):" ++ nl in
  let message := format_new_loop (firstn 10 new_resources) 1 message in
  if Nat.ltb 10 (List.length new_resources)
  then message ++ "  ...and " ++ string_of_nat (List.length new_resources - 10)
       ++ " more" ++ nl
  else message.

(** [SearchAnimeTool._format_search_results] *)
Definition _format_search_results (anime_name website : string)
  (results : list SearchResult) : string :=
  let (downloaded, new_resources) := _split_results results in
  let msg :=
    "🔍 Search Results for '" ++ anime_name ++ "' on " ++ website ++ ":"
    ++ nl ++ nl in
  let msg :=
    match downloaded with
    | _ :: _ => msg ++ _format_downloaded_resources downloaded
    | [] => msg
    end in
  match new_resources with
  | _ :: _ => msg ++ _format_new_resources new_resources
  | [] => msg ++ "ℹ️ No new resources found (all have been downloaded)" ++ nl
  end.

(** [SearchAnimeTool.execute] *)
Definition execute (anime_name website : string) : S string :=
  env <- ask ;;
  log (InfoSearching anime_name website) ;;
  match _build_search_url env anime_name website with
  | None =>
      log (ErrorUnsupportedWebsite website) ;;
      ret ("❌ Unsupported website: " ++ website)
  | Some search_url =>
      fetched <- _fetch_entries search_url ;;
      match fetched with
      | inl _ =>
          log (ExceptionSearching anime_name website) ;;
          ret ("❌ Error searching " ++ anime_name ++ " on " ++ website)
      | inr None =>
          log (ErrorCreateHandler search_url) ;;
          ret ("❌ Failed to create handler for " ++ website)
      | inr (Some entries) =>
          log (InfoFound (List.length entries)) ;;
          results <- _build_search_results entries ;;
          match results with
          | [] =>
              ret ("❌ No resources found for " ++ anime_name ++ " on "
                   ++ website)
          | _ :: _ => ret (_format_search_results anime_name website results)
          end
      end
  end.

(** ** Vocabulary for the statements about the tool *)

(** The search result built for one entry. *)
Definition result_of (env : SearchEnv) (entry : AnimeResourceInfo)
  : SearchResult :=
  {| title := Rss.title entry;
     download_url := or_empty (Rss.download_url entry);
     is_downloaded := db_is_downloaded env (Rss.title entry);
     anime_name := Rss.anime_name entry;
     episode := Rss.episode entry;
     quality := Rss.quality entry |}.

(** The accesses to the outside among the events: handler creation,
    fetches and history lookups. *)
Definition accesses (evs : list SearchEvent) : list SearchEvent :=
  filter (fun ev => match ev with SvLog _ => false | _ => true end) evs.

(** The websites the tool knows. *)
Definition supported (website : string) : Prop :=
  website = "mikan" \/ website = "dmhy" \/ website = "acgrip".

End Search.

(* ===================================================================== *)
(** * core/parser/parser.py: the completion loop                          *)
(* ===================================================================== *)

Module Parser.

(** One requested tool call: [tool_call.function.name] and the rest. *)
Record ToolCall : Type := mkToolCall {
  call_id : string;
  function_name : string;
  function_arguments : string
}.

(** The message of a completion: [content] and [tool_calls] (an absent
    [tool_calls] and an empty one are both falsy; both are the empty
    list here). *)
Record ChatMessage : Type := mkChatMessage {
  content : option string;
  tool_calls : list ToolCall
}.

(** The elements of the [messages] list: the dicts built by the caller,
    the completion messages appended by the loop, and whatever the tool
    handlers append. *)
Inductive Item : Type :=
| ItemDict (role content : string)
| ItemCompletion (m : ChatMessage)
| ItemTool (payload : string).

Inductive CompletionOutcome : Type :=
| CompletionRaises (exc : string)
| CompletionReturns (m : ChatMessage).

(** A tool handler mutates the [messages] list or raises. *)
Inductive ToolOutcome : Type :=
| ToolRaises (exc : string)
| ToolDone (messages : list Item).

Inductive ParserEvent : Type :=
| PvCompletion (messages : list Item) (tool_choice : option string)
| PvSearchTmdb (c : ToolCall) (messages : list Item)
| PvVerifyTmdb (c : ToolCall) (messages : list Item).

(** The collaborators: the OpenAI client (for the fixed model and tools
    of one parse) and the two TMDB tool handlers of
    [core/parser/tool/tmdb_tool.py].  Their answers may depend on all the
    calls made before. *)
Record ParserEnv : Type := mkParserEnv {
  complete : list ParserEvent -> list Item -> option string
             -> CompletionOutcome;
  handle_search_tmdb : list ParserEvent -> ToolCall -> list Item
                       -> ToolOutcome;
  handle_verify_tmdb : list ParserEvent -> ToolCall -> list Item
                       -> ToolOutcome
}.

(** The contents of the [messages] list object, and the calls made. *)
Record PSt : Type := mkPSt {
  messages : list Item;
  calls : list ParserEvent
}.

(** Reader, state and exceptions: [inl] is a raised exception. *)
Definition P (A : Type) : Type := ParserEnv -> PSt -> (string + A) * PSt.

Definition ret {A} (a : A) : P A := fun _ st => (inr a, st).

Definition raise {A} (exc : string) : P A := fun _ st => (inl exc, st).

Definition bind {A C} (c : P A) (k : A -> P C) : P C :=
  fun env st =>
    match c env st with
    | (inr a, st') => k a env st'
    | (inl exc, st') => (inl exc, st')
    end.

Notation "x <- c ;; k" := (bind c (fun x => k))
  (at level 61, c at next level, right associativity).
Notation "c ;; k" := (bind c (fun _ => k))
  (at level 61, right associativity).

Definition ask : P ParserEnv := fun env st => (inr env, st).

Definition get_messages : P (list Item) := fun _ st => (inr (messages st), st).

Definition get_calls : P (list ParserEvent) :=
  fun _ st => (inr (calls st), st).

Definition put_messages (ms : list Item) : P unit :=
  fun _ st => (inr tt, {| messages := ms; calls := calls st |}).

Definition emit (ev : ParserEvent) : P unit :=
  fun _ st =>
    (inr tt, {| messages := messages st; calls := (calls st ++ [ev])%list |}).

(** [messages.append(message)] *)
Definition append_message (m : ChatMessage) : P unit :=
  ms <- get_messages ;;
  put_messages (ms ++ [ItemCompletion m]).

(** [_request_completion]: [tool_choice] is passed on only when truthy. *)
Definition _request_completion (tool_choice : option string) : P ChatMessage :=
  env <- ask ;;
  ms <- get_messages ;;
  let tool_choice := if Rss.truthy tool_choice then tool_choice else None in
  before <- get_calls ;;
  emit (PvCompletion ms tool_choice) ;;
  match complete env before ms tool_choice with
  | CompletionReturns m => ret m
  | CompletionRaises exc => raise exc
  end.

(** Running one external tool handler on the [messages] list. *)
Definition run_tool (ev : ToolCall -> list Item -> ParserEvent)
  (handler : ParserEnv -> list ParserEvent -> ToolCall -> list Item
             -> ToolOutcome)
  (c : ToolCall) : P unit :=
  env <- ask ;;
  ms <- get_messages ;;
  before <- get_calls ;;
  emit (ev c ms) ;;
  match handler env before c ms with
  | ToolDone ms' => put_messages ms'
  | ToolRaises exc => raise exc
  end.

(** [_handle_tool_calls] *)
Fixpoint _handle_tool_calls (tool_calls : list ToolCall) : P unit :=
  match tool_calls with
  | [] => ret tt
  | tool_call :: tool_calls' =>
      (if String.eqb (function_name tool_call) "search_tmdb" then
         run_tool PvSearchTmdb handle_search_tmdb tool_call
       else if String.eqb (function_name tool_call)
                 "verify_tmdb_season_episode" then
         run_tool PvVerifyTmdb handle_verify_tmdb tool_call
       else ret tt) ;;
      _handle_tool_calls tool_calls'
  end.

(** The [for _ in range(max_rounds)] loop of [_get_response_message] with
    [rounds] iterations left, followed by the final request. *)
Fixpoint get_response_rounds (rounds : nat) : P ChatMessage :=
  match rounds with
  | O => _request_completion None
  | Datatypes.S rounds' =>
      message <- _request_completion (Some "auto") ;;
      match tool_calls message with
      | [] =>
          append_message message ;;
          ret message
      | _ :: _ =>
          append_message message ;;
          _handle_tool_calls (tool_calls message) ;;
          get_response_rounds rounds'
      end
  end.

(** [_get_response_message]; [range] of a negative number is empty. *)
Definition _get_response_message (max_rounds : Z) : P ChatMessage :=
  get_response_rounds (Z.to_nat max_rounds).

(** ** Vocabulary for the statements about the loop *)

(** The completion requests among the calls, as their [tool_choice]. *)
Definition completion_choices (evs : list ParserEvent)
  : list (option string) :=
  flat_map (fun ev => match ev with
                      | PvCompletion _ tool_choice => [tool_choice]
                      | _ => []
                      end) evs.

(** The tool handler calls among the calls. *)
Definition tool_runs (evs : list ParserEvent) : list ParserEvent :=
  filter (fun ev => match ev with PvCompletion _ _ => false | _ => true end)
    evs.

(** The exception a call raises, if it does, when it is made after the
    calls [before]. *)
Definition raised_by (env : ParserEnv) (before : list ParserEvent)
  (ev : ParserEvent) : option string :=
  match ev with
  | PvCompletion ms tool_choice =>
      match complete env before ms tool_choice with
      | CompletionRaises exc => Some exc
      | CompletionReturns _ => None
      end
  | PvSearchTmdb c ms =>
      match handle_search_tmdb env before c ms with
      | ToolRaises exc => Some exc
      | ToolDone _ => None
      end
  | PvVerifyTmdb c ms =>
      match handle_verify_tmdb env before c ms with
      | ToolRaises exc => Some exc
      | ToolDone _ => None
      end
  end.

(** What [_request_completion] gives for an answer of the client. *)
Definition completion_result (o : CompletionOutcome) : string + ChatMessage :=
  match o with
  | CompletionReturns m => inr m
  | CompletionRaises exc => inl exc
  end.

(** How the loop came to stop: started with [n] rounds after the calls
    [before], it made the calls [evs] and left with the result [r] and
    the messages [ms].  Either a round was answered by a message without
    tool calls, which was appended and returned; or a call of a round
    raised; or all [n] rounds were used and the result is the answer to
    the final request, made without [tool_choice] and not appended. *)
Definition stopped (env : ParserEnv) (n : nat) (before : list ParserEvent)
  (evs : list ParserEvent) (r : string + ChatMessage) (ms : list Item)
  : Prop :=
  exists evs0 last,
    evs = (evs0 ++ [last])%list /\
    ((exists k m ms_req,
         1 <= k <= n /\
         completion_choices evs = repeat (Some "auto") k /\
         last = PvCompletion ms_req (Some "auto") /\
         complete env (before ++ evs0) ms_req (Some "auto")
           = CompletionReturns m /\
         tool_calls m = [] /\
         r = inr m /\
         ms = (ms_req ++ [ItemCompletion m])%list) \/
     (exists k exc,
         1 <= k <= n /\
         completion_choices evs = repeat (Some "auto") k /\
         raised_by env (before ++ evs0) last = Some exc /\
         r = inl exc) \/
     (exists ms_final,
         last = PvCompletion ms_final None /\
         completion_choices evs0 = repeat (Some "auto") n /\
         r = completion_result
               (complete env (before ++ evs0) ms_final None) /\
         ms = ms_final)).

(** A tool call the loop knows how to run. *)
Definition known_tool (c : ToolCall) : bool :=
  String.eqb (function_name c) "search_tmdb"
  || String.eqb (function_name c) "verify_tmdb_season_episode".

End Parser.

(* ===================================================================== *)
(** * Properties of the transition contract                               *)
(* ===================================================================== *)

Section TransitionContract.
Import Base.

Lemma DownloadState_eqb_spec (a b : DownloadState) :
  reflect (a = b) (DownloadState_eqb a b).
Proof.
  destruct a, b; simpl; constructor; solve [reflexivity | discriminate].
Qed.

(** C4: for every value built by [ok], [transition], [poll] or [fail],
    the error message is populated exactly when [success] is false. *)
Theorem error_message_iff_failure (t : StateTransition) :
  Constructed t ->
  (error_message t <> None <-> success t = false).
Proof.
  intros Hc. destruct Hc; simpl; unfold default_error_message;
    split; intros H; solve [reflexivity | discriminate | congruence].
Qed.

Lemma error_message_iff_failure_witness :
  Constructed (fail "backend unreachable") /\
  (error_message (fail "backend unreachable") <> None <->
   success (fail "backend unreachable") = false).
Proof.
  split.
  - apply Constructed_fail.
  - apply (error_message_iff_failure (fail "backend unreachable")).
    apply Constructed_fail.
Defined.

(** C5, as worded, fails at [poll(DOWNLOADING, 0)]: the stored delay is
    zero. *)
Lemma poll_zero_delay_counterexample :
  ~ poll_always_delays DOWNLOADING 0%float.
Proof.
  unfold poll_always_delays. intros (_ & _ & _ & _ & H).
  vm_compute in H. discriminate H.
Qed.

(** C5 (amended): [poll s d] is a successful explicit self-transition
    without error message whose delay is exactly the given [d]; the delay
    is nonzero exactly when [d] is. *)
Theorem poll_stores_state_and_delay (s : DownloadState) (d : float) :
  success (poll s d) = true /\
  next_state (poll s d) = Some s /\
  error_message (poll s d) = None /\
  delay_seconds (poll s d) = d /\
  (delay_is_zero (delay_seconds (poll s d)) = false <->
   delay_is_zero d = false).
Proof.
  repeat split; intros H; exact H.
Qed.

(** C9: [transition s], [ok (next_state = s)] and [poll s 0] are the same
    value: success, next state [s], zero delay, no error message. *)
Theorem constructors_interdefinable (s : DownloadState) :
  transition s = ok (Some s) /\
  ok (Some s) = poll s 0%float /\
  poll s 0%float =
    {| success := true; next_state := Some s;
       delay_seconds := 0%float; error_message := None |}.
Proof.
  repeat split.
Qed.

End TransitionContract.


(* ===================================================================== *)
(** * Properties of the ingestion cycle                                   *)
(* ===================================================================== *)

Section IngestionCycle.
Import Rss.

Lemma add_events_nil st : add_events st [] = st.
Proof. destruct st. unfold add_events. simpl. now rewrite app_nil_r. Qed.

Lemma add_events_app st a b :
  add_events (add_events st a) b = add_events st (a ++ b).
Proof. unfold add_events. simpl. now rewrite app_assoc. Qed.

Lemma emit_run ev env st : emit ev env st = (tt, add_events st [ev]).
Proof. reflexivity. Qed.

Lemma bind_run {A B} (c : M A) (k : A -> M B) env st a st' :
  c env st = (a, st') -> bind c k env st = k a env st'.
Proof. intros H. unfold bind. now rewrite H. Qed.

(** Creating a handler performs no fetch and no lookup. *)
Lemma get_website_handler_run url env st :
  exists evs,
    _get_website_handler url env st
      = (handler_of env (self st) url, add_events st evs) /\ quiet evs.
Proof.
  unfold _get_website_handler, handler_of, bind, get_self, ask, log.
  rewrite emit_run. cbn [self add_events].
  destruct (factory_create env (_factory (self st)) url) as [exc | handler].
  - rewrite emit_run, add_events_app. eexists; split; [reflexivity|].
    repeat constructor.
  - eexists; split; [reflexivity|]. repeat constructor.
Qed.

Lemma build_fetch_tasks_loop_run env urls :
  forall tasks st, exists evs,
    _build_fetch_tasks_loop urls tasks env st
      = ((tasks ++ flat_map (fetch_task env (self st)) urls)%list,
         add_events st evs) /\ quiet evs.
Proof.
  induction urls as [|url urls IH]; intros tasks st; simpl.
  - exists []. rewrite add_events_nil, app_nil_r. split; [reflexivity | constructor].
  - destruct (get_website_handler_run url env st) as (evs1 & E1 & Q1).
    rewrite (bind_run _ _ _ _ _ _ E1). unfold fetch_task at 1.
    destruct (handler_of env (self st) url) as [h|].
    + destruct (IH (tasks ++ [CoFetchFeed h url])%list (add_events st evs1))
        as (evs2 & E2 & Q2).
      rewrite E2, add_events_app. cbn [self add_events].
      exists (evs1 ++ evs2)%list. rewrite <- app_assoc. split; [reflexivity|].
      apply Forall_app; now split.
    + destruct (IH tasks (add_events st evs1)) as (evs2 & E2 & Q2).
      rewrite E2, add_events_app. cbn [self add_events].
      exists (evs1 ++ evs2)%list. split; [reflexivity|].
      apply Forall_app; now split.
Qed.

Lemma gather_run env tasks :
  forall st, exists evs,
    gather tasks env st = (map (task_result env) tasks, add_events st evs).
Proof.
  induction tasks as [|c tasks IH]; intros st; simpl.
  - exists []. now rewrite add_events_nil.
  - destruct c as [h url]. unfold bind at 1. unfold await_task, bind, ask.
    rewrite emit_run. cbn [ret].
    destruct (IH (add_events st [EvFetchFeed h url])) as (evs & E).
    rewrite E, add_events_app. eexists; reflexivity.
Qed.

Lemma is_valid_feed_result_run result env st :
  exists evs,
    _is_valid_feed_result result env st = (is_list result, add_events st evs).
Proof.
  destruct result; simpl; unfold bind, log; try rewrite emit_run;
    try (eexists; reflexivity).
  exists []. now rewrite add_events_nil.
Qed.

(** The entry filter: its verdict, and the lookups it performs in order. *)
Lemma should_skip_entry_run e env st :
  exists evs,
    _should_skip_entry e env st
      = (negb (survives env (self st) e), add_events st evs) /\
    lookups evs = filter_lookups env (self st) e.
Proof.
  unfold _should_skip_entry, survives, filter_lookups, has_download_reference,
    obtained, tracked, bind, ask, log, get_self, emit, ret.
  destruct (truthy (download_url e)); simpl.
  2:{ exists []. now rewrite add_events_nil. }
  destruct (db_is_downloaded env (title e)); simpl.
  { rewrite <- app_assoc. eexists; split; [unfold add_events|]; reflexivity. }
  destruct (_download_manager (self st)) as [dm|]; simpl.
  2:{ eexists; split; [unfold add_events|]; reflexivity. }
  destruct (is_downloading env dm e); simpl; rewrite <- ?app_assoc;
    eexists; split; solve [unfold add_events; reflexivity | reflexivity].
Qed.

Lemma collect_entries_loop_run env result :
  forall new_entries st, exists evs,
    _collect_entries_loop result new_entries env st
      = ((new_entries ++ filter (survives env (self st)) result)%list,
         add_events st evs).
Proof.
  induction result as [|e result IH]; intros new_entries st; simpl.
  - exists []. now rewrite add_events_nil, app_nil_r.
  - destruct (should_skip_entry_run e env st) as (evs1 & E1 & _).
    rewrite (bind_run _ _ _ _ _ _ E1).
    destruct (survives env (self st) e); simpl.
    + destruct (IH (new_entries ++ [e])%list (add_events st evs1)) as (evs2 & E2).
      rewrite E2, add_events_app. cbn [self add_events].
      rewrite <- app_assoc. eexists; reflexivity.
    + destruct (IH new_entries (add_events st evs1)) as (evs2 & E2).
      rewrite E2, add_events_app. eexists; reflexivity.
Qed.

Lemma collect_results_loop_run env results :
  forall new_entries st, exists evs,
    _collect_results_loop results new_entries env st
      = (inr (new_entries
              ++ filter (survives env (self st))
                   (flat_map entries_of results))%list,
         add_events st evs).
Proof.
  induction results as [|r results IH]; intros new_entries st; simpl.
  - exists []. now rewrite add_events_nil, app_nil_r.
  - destruct (is_valid_feed_result_run r env st) as (evs1 & E1).
    rewrite (bind_run _ _ _ _ _ _ E1). rewrite filter_app.
    destruct r as [exc | repr elements | entries]; simpl.
    + destruct (IH new_entries (add_events st evs1)) as (evs2 & E2).
      rewrite E2, add_events_app. eexists; reflexivity.
    + destruct (IH new_entries (add_events st evs1)) as (evs2 & E2).
      rewrite E2, add_events_app. eexists; reflexivity.
    + destruct (collect_entries_loop_run env entries new_entries
                  (add_events st evs1)) as (evs2 & E2).
      rewrite (bind_run _ _ _ _ _ _ E2). rewrite add_events_app.
      destruct (IH (new_entries ++ filter (survives env (self st)) entries)%list
                  (add_events st (evs1 ++ evs2))) as (evs3 & E3).
      cbn [self add_events] in *.
      rewrite E3, add_events_app, <- app_assoc. eexists; reflexivity.
Qed.

Lemma gathered_entries env this urls :
  flat_map entries_of (map (task_result env) (flat_map (fetch_task env this) urls))
  = flat_map (source_entries env this) urls.
Proof.
  induction urls as [|url urls IH]; simpl; [reflexivity|].
  rewrite map_app, flat_map_app, IH. f_equal.
  unfold fetch_task, source_entries.
  destruct (handler_of env this url); simpl; [apply app_nil_r | reflexivity].
Qed.

(** A whole cycle: its output is the fetched entries that survive the
    filters, and it only appends events to the trace. *)
Lemma check_update_run env st :
  exists evs,
    check_update env st
      = (inr (filter (survives env (self st)) (fetched_entries env (self st))),
         add_events st evs).
Proof.
  unfold check_update, fetched_entries, bind at 1, ask.
  destruct (config_rss_urls env) as [|url urls] eqn:Hurls.
  { exists []. now rewrite add_events_nil. }
  unfold _build_fetch_tasks.
  destruct (build_fetch_tasks_loop_run env (url :: urls) [] st)
    as (evs1 & E1 & _).
  rewrite (bind_run _ _ _ _ _ _ E1). rewrite app_nil_l.
  rewrite <- gathered_entries.
  destruct (flat_map (fetch_task env (self st)) (url :: urls)) as [|c tasks].
  { eexists; reflexivity. }
  destruct (gather_run env (c :: tasks) (add_events st evs1)) as (evs2 & E2).
  rewrite (bind_run _ _ _ _ _ _ E2). rewrite add_events_app.
  unfold _collect_new_entries.
  destruct (collect_results_loop_run env (map (task_result env) (c :: tasks)) []
              (add_events st (evs1 ++ evs2))) as (evs3 & E3).
  rewrite (bind_run _ _ _ _ _ _ E3). rewrite add_events_app, app_nil_l.
  cbn [self add_events].
  unfold bind, log.
  destruct (filter _ _); rewrite emit_run, add_events_app;
    eexists; reflexivity.
Qed.

End IngestionCycle.

Section IngestionExamples.
Import Rss Scenario.

Example first_cycle_output : fst (check_update env_before st0) = inr [ep5].
Proof. reflexivity. Qed.

Example first_cycle_lookups :
  lookups (trace (snd (check_update env_before st0))) =
  [ EvFetchFeed dmhy down_url; EvFetchFeed mikan good_url;
    EvFetchFeed acgrip odd_url;
    EvDbIsDownloaded "Show S01E04";
    EvDbIsDownloaded "Show S01E05"; EvIsDownloading (DownloadManagerObj 0) ep5;
    EvDbIsDownloaded "Show S01E08"; EvIsDownloading (DownloadManagerObj 0) ep8 ].
Proof. reflexivity. Qed.

Example failing_results_need_the_check :
  iterate (fetch dmhy down_url) = inl (NotIterable "connection reset") /\
  iterate (fetch acgrip odd_url) = inr [ep9] /\
  survives env_before manager ep9 = true /\
  fst (_is_valid_feed_result (fetch dmhy down_url) env_before st0) = false /\
  fst (_is_valid_feed_result (fetch acgrip odd_url) env_before st0) = false.
Proof. repeat split. Qed.

Example second_cycle_output :
  fst (check_update env_after (snd (check_update env_before st0))) = inr [].
Proof. reflexivity. Qed.

End IngestionExamples.

(* ===================================================================== *)
(** * The claims about the ingestion cycle                                *)
(* ===================================================================== *)

Section IngestionClaims.
Import Rss.

(** The output of a cycle, as a function of what the collaborators answer. *)
Lemma check_update_output env st :
  fst (check_update env st)
  = inr (filter (survives env (self st)) (fetched_entries env (self st))).
Proof.
  destruct (check_update_run env st) as (evs & E). now rewrite E.
Qed.

(** The state a cycle leaves: the same manager, a longer trace. *)
Lemma check_update_state env st :
  exists evs, snd (check_update env st) = add_events st evs.
Proof.
  destruct (check_update_run env st) as (evs & E). exists evs. now rewrite E.
Qed.

Lemma source_fails_no_entries env this url :
  source_fails env this url = true -> source_entries env this url = [].
Proof.
  unfold source_fails, source_entries.
  destruct (handler_of env this url) as [h|]; [|reflexivity].
  destruct (fetch_feed env h url); simpl; [reflexivity | reflexivity | discriminate].
Qed.

Lemma same_feeds_fetched env1 env2 this :
  same_feeds env1 env2 ->
  fetched_entries env2 this = fetched_entries env1 this.
Proof.
  intros (Hu & Hc & Hf). unfold fetched_entries. rewrite Hu.
  apply flat_map_ext. intros url.
  unfold source_entries, handler_of. rewrite Hc.
  destruct (factory_create env1 (_factory this) url) as [exc | [h|]];
    try reflexivity.
  now rewrite Hf.
Qed.

Lemma filter_none {A} (f : A -> bool) (l : list A) :
  (forall x, In x l -> f x = false) -> filter f l = [].
Proof.
  induction l as [|a l IH]; intros H; simpl; [reflexivity|].
  rewrite (H a (or_introl eq_refl)). apply IH.
  intros x Hx. apply H. now right.
Qed.

Lemma no_handler_no_task env this urls :
  (forall url, In url urls -> handler_of env this url = None) ->
  flat_map (fetch_task env this) urls = [].
Proof.
  induction urls as [|u us IH]; intros H; [reflexivity|].
  simpl. unfold fetch_task at 1. rewrite (H u (or_introl eq_refl)).
  apply IH. intros u' Hu'. apply H. now right.
Qed.

(** C1: the entry filter discards an entry without download reference
    without consulting anything, otherwise consults the history oracle,
    and consults the registry only when the oracle does not report the
    title obtained; the cycle's output is exactly the entries of the
    successfully fetched results that survive the three filters. *)
Theorem dedup_filters_in_order env st e :
  (exists evs,
      _should_skip_entry e env st
        = (negb (has_download_reference e) || obtained env e
           || tracked env (self st) e,
           add_events st evs) /\
      lookups evs = filter_lookups env (self st) e) /\
  fst (check_update env st)
    = inr (filter (fun e => has_download_reference e && negb (obtained env e)
                            && negb (tracked env (self st) e))
             (fetched_entries env (self st))) /\
  (exists out,
      fst (check_update env st) = inr out /\
      (In e out <->
         In e (fetched_entries env (self st)) /\
         has_download_reference e = true /\
         obtained env e = false /\
         tracked env (self st) e = false)).
Proof.
  split; [|split].
  - destruct (should_skip_entry_run e env st) as (evs & E & L).
    exists evs. split; [|exact L]. rewrite E. f_equal.
    unfold survives.
    destruct (has_download_reference e), (obtained env e),
      (tracked env (self st) e); reflexivity.
  - apply check_update_output.
  - eexists. split; [apply check_update_output|].
    rewrite filter_In. unfold survives.
    rewrite !andb_true_iff, !negb_true_iff. tauto.
Qed.

(** C2: a source that fails (no handler, a raising fetch, or a fetch
    result that is not a list) does not stop the cycle and contributes
    no entry: the cycle returns normally, it returns what it would
    return without that source, every entry it returns was delivered by
    one of the other sources, and every surviving entry of every
    configured source is in the output. *)
Theorem source_failure_is_isolated env st urls1 u urls2 :
  config_rss_urls env = (urls1 ++ u :: urls2)%list ->
  source_fails env (self st) u = true ->
  exists out,
    fst (check_update env st) = inr out /\
    fst (check_update (with_urls env (urls1 ++ urls2)) st) = inr out /\
    source_entries env (self st) u = [] /\
    (forall e, In e out ->
       exists url, In url (urls1 ++ urls2) /\
                   In e (source_entries env (self st) url)) /\
    (forall url e,
        In url (config_rss_urls env) ->
        In e (source_entries env (self st) url) ->
        survives env (self st) e = true ->
        In e out).
Proof.
  intros Hurls Hfail.
  pose proof (source_fails_no_entries _ _ _ Hfail) as Hnil.
  assert (Hsame : fetched_entries env (self st)
                  = flat_map (source_entries env (self st)) (urls1 ++ urls2)).
  { unfold fetched_entries. rewrite Hurls, !flat_map_app. simpl.
    now rewrite Hnil. }
  exists (filter (survives env (self st)) (fetched_entries env (self st))).
  split; [apply check_update_output|]. split; [|split; [exact Hnil|split]].
  - rewrite check_update_output. unfold fetched_entries at 1. simpl.
    rewrite Hsame. reflexivity.
  - intros e He. apply filter_In in He. destruct He as (He & _).
    rewrite Hsame in He. apply in_flat_map in He. exact He.
  - intros url e Hin He Hs.
    apply filter_In. split; [|exact Hs].
    unfold fetched_entries. apply in_flat_map. exists url. now split.
Qed.

(** C3: when everything a first cycle returned is afterwards tracked or
    obtained, and nothing tracked or obtained before has been forgotten,
    a second cycle over the same feeds returns nothing. *)
Theorem ingestion_idempotent env1 env2 st :
  same_feeds env1 env2 ->
  (forall out e, fst (check_update env1 st) = inr out -> In e out ->
                 obtained env2 e = true \/ tracked env2 (self st) e = true) ->
  (forall t, db_is_downloaded env1 t = true -> db_is_downloaded env2 t = true) ->
  (forall e, tracked env1 (self st) e = true ->
             tracked env2 (self st) e = true) ->
  fst (check_update env2 (snd (check_update env1 st))) = inr [].
Proof.
  intros Hsame Hreg Hdb Htr.
  destruct (check_update_state env1 st) as (evs & ->).
  rewrite check_update_output. cbn [self add_events].
  rewrite (same_feeds_fetched env1 env2 _ Hsame).
  f_equal. apply filter_none. intros e He.
  destruct (survives env2 (self st) e) eqn:Hs2; [|reflexivity].
  exfalso. unfold survives in Hs2.
  rewrite !andb_true_iff, !negb_true_iff in Hs2.
  destruct Hs2 as ((Href & Hob2) & Htr2).
  assert (Hs1 : survives env1 (self st) e = true).
  { unfold survives. rewrite Href. simpl.
    destruct (obtained env1 e) eqn:Hob1.
    - unfold obtained in *. rewrite (Hdb _ Hob1) in Hob2. discriminate.
    - destruct (tracked env1 (self st) e) eqn:Htr1; [|reflexivity].
      rewrite (Htr _ Htr1) in Htr2. discriminate. }
  assert (Hin : In e (filter (survives env1 (self st))
                        (fetched_entries env1 (self st)))).
  { apply filter_In. now split. }
  destruct (Hreg _ e (check_update_output env1 st) Hin) as [H|H]; congruence.
Qed.

(** C6: a cycle leaves the manager object as it found it, both
    attributes included, so a second cycle that sees the same collaborators
    returns what the first one returned. *)
Theorem check_update_retains_no_state env st :
  self (snd (check_update env st)) = self st /\
  _download_manager (self (snd (check_update env st)))
    = _download_manager (self st) /\
  _factory (self (snd (check_update env st))) = _factory (self st) /\
  fst (check_update env (snd (check_update env st)))
    = fst (check_update env st).
Proof.
  destruct (check_update_state env st) as (evs & E).
  rewrite !check_update_output, E. cbn [self add_events].
  repeat split.
Qed.

(** C8: with no configured URL, or no URL for which a handler can be
    created, the cycle returns the empty list and performs no fetch, no
    history lookup and no registry lookup. *)
Theorem no_source_no_io env st :
  config_rss_urls env = [] \/
  (forall url, In url (config_rss_urls env) ->
               handler_of env (self st) url = None) ->
  exists evs,
    check_update env st = (inr [], add_events st evs) /\ quiet evs.
Proof.
  intros H.
  assert (Hnone : flat_map (fetch_task env (self st)) (config_rss_urls env) = []).
  { destruct H as [-> | H]; [reflexivity|]. now apply no_handler_no_task. }
  clear H. unfold check_update, bind at 1, ask.
  destruct (config_rss_urls env) as [|url urls].
  { exists []. rewrite add_events_nil. split; [reflexivity | constructor]. }
  unfold _build_fetch_tasks.
  destruct (build_fetch_tasks_loop_run env (url :: urls) [] st)
    as (evs & E & Q).
  rewrite (bind_run _ _ _ _ _ _ E). rewrite app_nil_l, Hnone.
  exists evs. split; [reflexivity | exact Q].
Qed.

End IngestionClaims.

Section IngestionWitnesses.
Import Rss Scenario.

Lemma source_failure_is_isolated_witness :
  exists out,
    fst (check_update env_before st0) = inr out /\
    fst (check_update
           (with_urls env_before ([] ++ [good_url; unknown_url; odd_url])) st0)
      = inr out /\
    source_entries env_before (self st0) down_url = [] /\
    (forall e, In e out ->
       exists url, In url ([] ++ [good_url; unknown_url; odd_url]) /\
                   In e (source_entries env_before (self st0) url)) /\
    (forall url e,
        In url (config_rss_urls env_before) ->
        In e (source_entries env_before (self st0) url) ->
        survives env_before (self st0) e = true ->
        In e out).
Proof.
  apply (source_failure_is_isolated env_before st0
           [] down_url [good_url; unknown_url; odd_url]).
  - reflexivity.
  - reflexivity.
Defined.

Lemma ingestion_idempotent_witness :
  fst (check_update env_after (snd (check_update env_before st0))) = inr [].
Proof.
  apply (ingestion_idempotent env_before env_after st0).
  - repeat split.
  - intros out e Hout. vm_compute in Hout. injection Hout as <-.
    intros [<- | []]. right. reflexivity.
  - intros t H. exact H.
  - intros e H. unfold tracked in *. simpl in *. rewrite H. reflexivity.
Defined.

Lemma no_source_no_io_witness :
  exists evs,
    check_update (with_urls env_before [unknown_url]) st0
      = (inr [], add_events st0 evs) /\ quiet evs.
Proof.
  apply (no_source_no_io (with_urls env_before [unknown_url]) st0).
  right. intros url [<- | []]. reflexivity.
Defined.

End IngestionWitnesses.

(* ===================================================================== *)
(** * The claim about the conversation history                            *)
(* ===================================================================== *)

Section ConversationHistory.
Import Telegram.

Lemma appended_list history u r :
  ((history ++ [mkMessage "user" u]) ++ [mkMessage "assistant" r])%list
  = (history ++ turn u r)%list.
Proof. now rewrite <- app_assoc. Qed.

(** With a positive limit, [l[-m:]] drops the first [length l - m]
    elements of a list longer than [m]. *)
Lemma slice_from_last {A} (l : list A) (m : Z) :
  (0 < m)%Z -> (m < Z.of_nat (List.length l))%Z ->
  slice_from l (- m) = skipn (List.length l - Z.to_nat m) l.
Proof.
  intros Hm Hl. unfold slice_from.
  destruct (Z.ltb_spec (- m) 0) as [_|Hge]; [|lia].
  f_equal. lia.
Qed.

Example append_history_trims :
  _append_history 1
    [mkMessage "user" "a"; mkMessage "assistant" "b"] "c" "d"
  = [mkMessage "user" "c"; mkMessage "assistant" "d"].
Proof. reflexivity. Qed.

Example append_history_keeps :
  _append_history 2 [mkMessage "user" "a"; mkMessage "assistant" "b"] "c" "d"
  = [mkMessage "user" "a"; mkMessage "assistant" "b";
     mkMessage "user" "c"; mkMessage "assistant" "d"].
Proof. reflexivity. Qed.

(** C10: with [max_history >= 1], after [_append_history] the list holds
    at most [2 * max_history] messages; it is a suffix of the old list
    followed by the new turn, it ends with that turn, and when the call
    trims it keeps exactly the last [2 * max_history] messages. *)
Theorem append_history_bounded (max_history : Z) (history : list Message)
  (user_text response : string) :
  (1 <= max_history)%Z ->
  (Z.of_nat (List.length (_append_history max_history history user_text response))
     <= 2 * max_history)%Z /\
  (exists dropped,
      (history ++ turn user_text response
       = dropped ++ _append_history max_history history user_text response)%list) /\
  (exists older,
      _append_history max_history history user_text response
      = (older ++ turn user_text response)%list) /\
  (trims max_history history = true ->
     Z.of_nat (List.length (_append_history max_history history user_text response))
     = (2 * max_history)%Z) /\
  (trims max_history history = false ->
     _append_history max_history history user_text response
     = (history ++ turn user_text response)%list).
Proof.
  intros Hmax. unfold _append_history, trims.
  rewrite appended_list.
  assert (Hlen : List.length (history ++ turn user_text response)
                 = List.length history + 2).
  { rewrite length_app. reflexivity. }
  rewrite Hlen.
  destruct (Z.gtb_spec (Z.of_nat (List.length history + 2)) (max_history * 2))
    as [Hgt | Hle].
  - rewrite slice_from_last by lia. rewrite Hlen.
    set (k := List.length history + 2 - Z.to_nat (max_history * 2)).
    assert (Hk : k <= List.length history) by lia.
    repeat split.
    + rewrite length_skipn, Hlen. lia.
    + exists (firstn k (history ++ turn user_text response)).
      now rewrite firstn_skipn.
    + exists (skipn k history). rewrite skipn_app.
      replace (k - List.length history) with 0 by lia. reflexivity.
    + intros _. rewrite length_skipn, Hlen. lia.
    + discriminate.
  - repeat split.
    + rewrite Hlen. lia.
    + exists []. reflexivity.
    + exists history. reflexivity.
    + discriminate.
Qed.

Lemma append_history_bounded_witness :
  (Z.of_nat (List.length
     (_append_history 1 [mkMessage "user" "a"; mkMessage "assistant" "b"] "c" "d"))
     <= 2 * 1)%Z.
Proof.
  apply (append_history_bounded 1
           [mkMessage "user" "a"; mkMessage "assistant" "b"] "c" "d").
  lia.
Defined.

End ConversationHistory.

(* ===================================================================== *)
(** * Further properties of the ingestion cycle                           *)
(* ===================================================================== *)

Section IngestionExtras.
Import Rss RssTrace Scenario.

Lemma lookups_app a b : lookups (a ++ b) = (lookups a ++ lookups b)%list.
Proof. apply filter_app. Qed.

Lemma quiet_lookups evs : quiet evs -> lookups evs = [].
Proof.
  intros Q. apply filter_none. intros ev Hin.
  exact (proj1 (Forall_forall _ _) Q ev Hin).
Qed.

Lemma gather_lookups env tasks :
  forall st, exists evs,
    gather tasks env st = (map (task_result env) tasks, add_events st evs) /\
    lookups evs = map fetch_event tasks.
Proof.
  induction tasks as [|c tasks IH]; intros st; simpl.
  - exists []. now rewrite add_events_nil.
  - destruct c as [h url]. unfold bind at 1. unfold await_task, bind, ask.
    rewrite emit_run. cbn [ret].
    destruct (IH (add_events st [EvFetchFeed h url])) as (evs & E & L).
    rewrite E, add_events_app. eexists; split; [reflexivity|].
    rewrite lookups_app, L. reflexivity.
Qed.

Lemma is_valid_feed_result_lookups result env st :
  exists evs,
    _is_valid_feed_result result env st = (is_list result, add_events st evs) /\
    lookups evs = [].
Proof.
  destruct result; simpl; unfold bind, log; try rewrite emit_run;
    try (eexists; split; reflexivity).
  exists []. now rewrite add_events_nil.
Qed.

Lemma collect_entries_loop_lookups env result :
  forall new_entries st, exists evs,
    _collect_entries_loop result new_entries env st
      = ((new_entries ++ filter (survives env (self st)) result)%list,
         add_events st evs) /\
    lookups evs = flat_map (filter_lookups env (self st)) result.
Proof.
  induction result as [|e result IH]; intros new_entries st; simpl.
  - exists []. now rewrite add_events_nil, app_nil_r.
  - destruct (should_skip_entry_run e env st) as (evs1 & E1 & L1).
    rewrite (bind_run _ _ _ _ _ _ E1).
    destruct (survives env (self st) e); simpl.
    + destruct (IH (new_entries ++ [e])%list (add_events st evs1))
        as (evs2 & E2 & L2).
      rewrite E2, add_events_app. cbn [self add_events] in *.
      rewrite <- app_assoc. eexists; split; [reflexivity|].
      now rewrite lookups_app, L1, L2.
    + destruct (IH new_entries (add_events st evs1)) as (evs2 & E2 & L2).
      rewrite E2, add_events_app. cbn [self add_events] in *.
      eexists; split; [reflexivity|].
      now rewrite lookups_app, L1, L2.
Qed.

Lemma collect_results_loop_lookups env results :
  forall new_entries st, exists evs,
    _collect_results_loop results new_entries env st
      = (inr (new_entries
              ++ filter (survives env (self st))
                   (flat_map entries_of results))%list,
         add_events st evs) /\
    lookups evs
      = flat_map (filter_lookups env (self st)) (flat_map entries_of results).
Proof.
  induction results as [|r results IH]; intros new_entries st; simpl.
  - exists []. now rewrite add_events_nil, app_nil_r.
  - destruct (is_valid_feed_result_lookups r env st) as (evs1 & E1 & L1).
    rewrite (bind_run _ _ _ _ _ _ E1). rewrite filter_app, flat_map_app.
    destruct r as [exc | repr elements | entries]; simpl.
    + destruct (IH new_entries (add_events st evs1)) as (evs2 & E2 & L2).
      rewrite E2, add_events_app. cbn [self add_events] in *.
      eexists; split; [reflexivity|]. now rewrite lookups_app, L1, L2.
    + destruct (IH new_entries (add_events st evs1)) as (evs2 & E2 & L2).
      rewrite E2, add_events_app. cbn [self add_events] in *.
      eexists; split; [reflexivity|]. now rewrite lookups_app, L1, L2.
    + destruct (collect_entries_loop_lookups env entries new_entries
                  (add_events st evs1)) as (evs2 & E2 & L2).
      rewrite (bind_run _ _ _ _ _ _ E2). rewrite add_events_app.
      destruct (IH (new_entries ++ filter (survives env (self st)) entries)%list
                  (add_events st (evs1 ++ evs2))) as (evs3 & E3 & L3).
      cbn [self add_events] in *.
      rewrite E3, add_events_app, <- app_assoc.
      eexists; split; [reflexivity|].
      now rewrite !lookups_app, L1, L2, L3.
Qed.

(** The whole cycle with its output, its closing log and its lookups. *)
Lemma check_update_trace env st :
  exists evs,
    check_update env st
      = (inr (filter (survives env (self st)) (fetched_entries env (self st))),
         add_events st evs) /\
    lookups evs = cycle_lookups env (self st) /\
    (flat_map (fetch_task env (self st)) (config_rss_urls env) <> [] ->
     exists evs', evs = (evs' ++
       [summary_log (filter (survives env (self st))
                       (fetched_entries env (self st)))])%list).
Proof.
  unfold check_update, cycle_lookups, fetched_entries, bind at 1, ask.
  destruct (config_rss_urls env) as [|url urls] eqn:Hurls.
  { exists []. rewrite add_events_nil. repeat split. intros H. now elim H. }
  unfold _build_fetch_tasks.
  destruct (build_fetch_tasks_loop_run env (url :: urls) [] st)
    as (evs1 & E1 & Q1).
  rewrite (bind_run _ _ _ _ _ _ E1). rewrite app_nil_l.
  rewrite <- gathered_entries.
  destruct (flat_map (fetch_task env (self st)) (url :: urls)) as [|c tasks].
  { eexists; split; [reflexivity|]. split.
    - now apply quiet_lookups.
    - intros H. now elim H. }
  destruct (gather_lookups env (c :: tasks) (add_events st evs1))
    as (evs2 & E2 & L2).
  rewrite (bind_run _ _ _ _ _ _ E2). rewrite add_events_app.
  unfold _collect_new_entries.
  destruct (collect_results_loop_lookups env (map (task_result env) (c :: tasks))
              [] (add_events st (evs1 ++ evs2))) as (evs3 & E3 & L3).
  rewrite (bind_run _ _ _ _ _ _ E3). rewrite add_events_app, app_nil_l.
  cbn [self add_events] in *.
  unfold bind, log.
  set (out := filter _ _) in *.
  assert (Hlog : exists ev, ev = summary_log out /\ is_io ev = false /\
     (match out with
      | _ :: _ => emit (EvLog (InfoNewEntries (List.length out)))
      | [] => emit (EvLog DebugNoNewEntries)
      end) env (add_events st ((evs1 ++ evs2) ++ evs3))
     = (tt, add_events st (((evs1 ++ evs2) ++ evs3) ++ [ev]))).
  { exists (summary_log out).
    destruct out; simpl; rewrite emit_run, add_events_app; repeat split. }
  destruct Hlog as (ev & Hev & Hio & Hrun).
  rewrite Hrun. eexists; split; [reflexivity|]. split.
  - rewrite !lookups_app, (quiet_lookups _ Q1), L2, L3. simpl. rewrite Hio.
    now rewrite app_nil_r.
  - intros _. exists ((evs1 ++ evs2) ++ evs3)%list. now rewrite Hev.
Qed.

Lemma filter_refines {A} (f g : A -> bool) (l : list A) :
  (forall x, g x = true -> f x = true) ->
  filter g l = filter g (filter f l).
Proof.
  intros H. induction l as [|a l IH]; simpl; [reflexivity|].
  destruct (f a) eqn:Hf; simpl.
  - destruct (g a); now rewrite IH.
  - destruct (g a) eqn:Hg; [|exact IH].
    rewrite (H a Hg) in Hf. discriminate.
Qed.

Lemma Permutation_filter_compat {A} (f : A -> bool) (l l' : list A) :
  Permutation l l' -> Permutation (filter f l) (filter f l').
Proof.
  induction 1 as [|x l l' _ IH|x y l|l l' l'' _ IH1 _ IH2]; simpl.
  - constructor.
  - destruct (f x); [now constructor | exact IH].
  - destruct (f x), (f y); try apply Permutation_refl. apply perm_swap.
  - now transitivity (filter f l').
Qed.

(** X1: the sources are processed independently: the output for a
    configuration [urls1 ++ urls2] is the output for [urls1] followed by
    the output for [urls2]. *)
Theorem check_update_concatenates env st urls1 urls2 :
  exists out1 out2,
    fst (check_update (with_urls env urls1) st) = inr out1 /\
    fst (check_update (with_urls env urls2) st) = inr out2 /\
    fst (check_update (with_urls env (urls1 ++ urls2)) st)
      = inr (out1 ++ out2)%list.
Proof.
  eexists _, _. rewrite !check_update_output.
  split; [reflexivity|]. split; [reflexivity|].
  unfold fetched_entries. simpl.
  change (source_entries (with_urls env (urls1 ++ urls2)))
    with (source_entries env).
  change (source_entries (with_urls env urls1)) with (source_entries env).
  change (source_entries (with_urls env urls2)) with (source_entries env).
  change (survives (with_urls env (urls1 ++ urls2))) with (survives env).
  change (survives (with_urls env urls1)) with (survives env).
  change (survives (with_urls env urls2)) with (survives env).
  now rewrite flat_map_app, filter_app.
Qed.

(** X2: a cycle does not deduplicate its own output: a surviving entry
    delivered by two configured sources is returned twice. *)
Theorem check_update_keeps_duplicates env st urls1 u1 urls2 u2 urls3 e :
  config_rss_urls env = (urls1 ++ u1 :: urls2 ++ u2 :: urls3)%list ->
  In e (source_entries env (self st) u1) ->
  In e (source_entries env (self st) u2) ->
  survives env (self st) e = true ->
  exists out,
    fst (check_update env st) = inr out /\
    (exists l1 l2 l3, out = (l1 ++ e :: l2 ++ e :: l3)%list) /\
    ~ NoDup out.
Proof.
  intros Hurls H1 H2 Hs.
  eexists. split; [apply check_update_output|].
  assert (Hsplit : exists l1 l2 l3,
             filter (survives env (self st)) (fetched_entries env (self st))
             = (l1 ++ e :: l2 ++ e :: l3)%list).
  { unfold fetched_entries. rewrite Hurls.
    rewrite flat_map_app. simpl. rewrite flat_map_app. simpl.
    rewrite !filter_app.
    assert (F1 : In e (filter (survives env (self st))
                         (source_entries env (self st) u1)))
      by (apply filter_In; now split).
    assert (F2 : In e (filter (survives env (self st))
                         (source_entries env (self st) u2)))
      by (apply filter_In; now split).
    apply in_split in F1. destruct F1 as (a1 & b1 & ->).
    apply in_split in F2. destruct F2 as (a2 & b2 & ->).
    set (A := filter _ (flat_map _ urls1)).
    set (B := filter _ (flat_map _ urls2)).
    set (C := filter _ (flat_map _ urls3)).
    exists (A ++ a1)%list, (b1 ++ B ++ a2)%list, (b2 ++ C)%list.
    rewrite <- !app_assoc. simpl. reflexivity. }
  split; [exact Hsplit|].
  destruct Hsplit as (l1 & l2 & l3 & ->). intros Hnd.
  apply NoDup_remove_2 in Hnd. apply Hnd.
  apply in_or_app. right. apply in_or_app. right. now left.
Qed.

Lemma check_update_keeps_duplicates_witness :
  exists out,
    fst (check_update (with_urls env_before [good_url; good_url]) st0)
      = inr out /\
    (exists l1 l2 l3, out = (l1 ++ ep5 :: l2 ++ ep5 :: l3)%list) /\
    ~ NoDup out.
Proof.
  apply (check_update_keeps_duplicates
           (with_urls env_before [good_url; good_url]) st0
           [] good_url [] good_url [] ep5).
  - reflexivity.
  - vm_compute. right. left. reflexivity.
  - vm_compute. right. left. reflexivity.
  - reflexivity.
Defined.

(** X3: the fetches and lookups of a cycle are exactly one fetch per URL
    that has a handler, in configuration order, followed, entry by entry
    in feed order, by the history lookup of each entry that has a download
    reference and the registry lookup of each such entry that is not
    obtained. *)
Theorem check_update_lookups env st :
  exists evs,
    snd (check_update env st) = add_events st evs /\
    lookups evs = cycle_lookups env (self st).
Proof.
  destruct (check_update_trace env st) as (evs & E & L & _).
  exists evs. rewrite E. now split.
Qed.

(** X4: when the oracle and the registry have only gained titles and the
    feeds are the same, the new output is the old output with the entries
    obtained or tracked in the meantime removed. *)
Theorem check_update_refines env1 env2 st :
  same_feeds env1 env2 ->
  (forall t, db_is_downloaded env1 t = true -> db_is_downloaded env2 t = true) ->
  (forall e, tracked env1 (self st) e = true ->
             tracked env2 (self st) e = true) ->
  exists out1,
    fst (check_update env1 st) = inr out1 /\
    fst (check_update env2 st) = inr (filter (survives env2 (self st)) out1).
Proof.
  intros Hsame Hdb Htr. eexists. rewrite !check_update_output.
  split; [reflexivity|]. f_equal.
  rewrite (same_feeds_fetched env1 env2 _ Hsame).
  apply filter_refines. intros e. unfold survives, obtained.
  rewrite !andb_true_iff, !negb_true_iff.
  intros ((Href & Hob2) & Htr2). repeat split; [exact Href| |].
  - destruct (db_is_downloaded env1 (title e)) eqn:H1; [|reflexivity].
    rewrite (Hdb _ H1) in Hob2. discriminate.
  - destruct (tracked env1 (self st) e) eqn:H1; [|reflexivity].
    rewrite (Htr _ H1) in Htr2. discriminate.
Qed.

Lemma check_update_refines_witness :
  exists out1,
    fst (check_update env_before st0) = inr out1 /\
    fst (check_update env_after st0)
      = inr (filter (survives env_after (self st0)) out1).
Proof.
  apply (check_update_refines env_before env_after st0).
  - repeat split.
  - intros t H. exact H.
  - intros e H. unfold tracked in *. simpl in *. rewrite H. reflexivity.
Defined.

(** X5: reordering the configured URLs only reorders the output. *)
Theorem check_update_permutes env st urls urls' :
  Permutation urls urls' ->
  exists out out',
    fst (check_update (with_urls env urls) st) = inr out /\
    fst (check_update (with_urls env urls') st) = inr out' /\
    Permutation out out'.
Proof.
  intros HP. eexists _, _. rewrite !check_update_output.
  split; [reflexivity|]. split; [reflexivity|].
  unfold fetched_entries. simpl.
  change (source_entries (with_urls env urls)) with (source_entries env).
  change (source_entries (with_urls env urls')) with (source_entries env).
  change (survives (with_urls env urls)) with (survives env).
  change (survives (with_urls env urls')) with (survives env).
  apply Permutation_filter_compat. now apply Permutation_flat_map.
Qed.

Lemma check_update_permutes_witness :
  exists out out',
    fst (check_update (with_urls env_before [down_url; good_url]) st0)
      = inr out /\
    fst (check_update (with_urls env_before [good_url; down_url]) st0)
      = inr out' /\
    Permutation out out'.
Proof.
  apply (check_update_permutes env_before st0).
  apply perm_swap.
Defined.

(** X6: a cycle that obtained at least one handler ends by logging its
    summary, and the count it logs is the number of entries it returns. *)
Theorem check_update_logs_summary env st :
  (exists url, In url (config_rss_urls env) /\
               handler_of env (self st) url <> None) ->
  exists out evs,
    fst (check_update env st) = inr out /\
    snd (check_update env st) = add_events st (evs ++ [summary_log out]) /\
    (out <> [] ->
     summary_log out = EvLog (InfoNewEntries (List.length out))).
Proof.
  intros (url & Hin & Hh).
  destruct (check_update_trace env st) as (evs & E & _ & Hsum).
  assert (Hne : flat_map (fetch_task env (self st)) (config_rss_urls env) <> []).
  { intros Hnil.
    assert (Hc : In (match handler_of env (self st) url with
                     | Some h => CoFetchFeed h url
                     | None => CoFetchFeed (WebsiteObj 0) url
                     end)
                   (flat_map (fetch_task env (self st)) (config_rss_urls env))).
    { apply in_flat_map. exists url. split; [exact Hin|].
      unfold fetch_task. destruct (handler_of env (self st) url);
        [now left | now elim Hh]. }
    rewrite Hnil in Hc. exact Hc. }
  destruct (Hsum Hne) as (evs' & ->).
  eexists _, evs'. rewrite E. simpl. split; [reflexivity|].
  split; [reflexivity|].
  intros Hout. unfold summary_log.
  destruct (filter _ _); [now elim Hout | reflexivity].
Qed.

Lemma check_update_logs_summary_witness :
  exists out evs,
    fst (check_update env_before st0) = inr out /\
    snd (check_update env_before st0)
      = add_events st0 (evs ++ [summary_log out]) /\
    (out <> [] ->
     summary_log out = EvLog (InfoNewEntries (List.length out))).
Proof.
  apply (check_update_logs_summary env_before st0).
  exists good_url. split.
  - right. left. reflexivity.
  - discriminate.
Defined.

End IngestionExtras.

(* ===================================================================== *)
(** * Properties of the Telegram bot's handlers                           *)
(* ===================================================================== *)

Section PollingOffset.
Import Py Bot.

Lemma update_polling_offset_monotone update offset offset' :
  _update_polling_offset update offset = inr offset' ->
  (offset <= offset')%Z.
Proof.
  unfold _update_polling_offset.
  destruct (truthy (dict_get update "update_id" PyNone)).
  - destruct (add_one (dict_get update "update_id" PyNone)) as [e|n];
      [discriminate|].
    intros H. injection H as <-. lia.
  - intros H. injection H as <-. lia.
Qed.

Lemma poll_offsets_monotone updates :
  forall offset offset',
    poll_offsets updates offset = inr offset' -> (offset <= offset')%Z.
Proof.
  induction updates as [|u updates IH]; intros offset offset'; simpl.
  - intros H. injection H as <-. lia.
  - destruct (_update_polling_offset u offset) as [e|o] eqn:E; [discriminate|].
    intros H. apply IH in H. apply update_polling_offset_monotone in E. lia.
Qed.

Lemma update_polling_offset_int update offset z :
  dict_get update "update_id" PyNone = PyInt z ->
  z <> 0%Z ->
  _update_polling_offset update offset = inr (Z.max offset (z + 1)).
Proof.
  intros Hid Hz. unfold _update_polling_offset. rewrite Hid. simpl.
  destruct (Z.eqb_spec z 0) as [->|_]; [now elim Hz | reflexivity].
Qed.

(** X7: an update that carries a nonzero integer [update_id] moves the
    offset to the larger of the current offset and [update_id + 1]: the
    offset never moves backwards and ends beyond the update's id. *)
Theorem polling_offset_advances update offset z :
  dict_get update "update_id" PyNone = PyInt z ->
  z <> 0%Z ->
  _update_polling_offset update offset = inr (Z.max offset (z + 1)) /\
  (offset <= Z.max offset (z + 1))%Z /\
  (z < Z.max offset (z + 1))%Z.
Proof.
  intros Hid Hz. rewrite (update_polling_offset_int _ _ _ Hid Hz).
  repeat split; lia.
Qed.

Lemma polling_offset_advances_witness :
  _update_polling_offset
    [("update_id", PyInt 864201); ("message", PyNone)] 17
  = inr (Z.max 17 (864201 + 1)) /\
  (17 <= Z.max 17 (864201 + 1))%Z /\
  (864201 < Z.max 17 (864201 + 1))%Z.
Proof.
  apply (polling_offset_advances
           [("update_id", PyInt 864201); ("message", PyNone)] 17 864201).
  - reflexivity.
  - lia.
Defined.

(** An update without [update_id], or whose [update_id] is [0],
    [None], [False] or empty, leaves the offset where it is. *)
Theorem polling_offset_ignores_falsy_id update offset :
  truthy (dict_get update "update_id" PyNone) = false ->
  _update_polling_offset update offset = inr offset.
Proof.
  intros H. unfold _update_polling_offset. now rewrite H.
Qed.

Lemma polling_offset_ignores_falsy_id_witness :
  _update_polling_offset [("update_id", PyInt 0)] 5 = inr 5%Z.
Proof.
  apply (polling_offset_ignores_falsy_id [("update_id", PyInt 0)] 5).
  reflexivity.
Defined.

(** X8: after a batch of updates has been processed in order, the offset
    has not moved backwards and lies beyond the id of every update of the
    batch that carries a nonzero integer [update_id]. *)
Theorem poll_offsets_beyond_batch updates offset offset' :
  poll_offsets updates offset = inr offset' ->
  (offset <= offset')%Z /\
  (forall update z,
      In update updates ->
      dict_get update "update_id" PyNone = PyInt z ->
      z <> 0%Z ->
      (z < offset')%Z).
Proof.
  intros H. split; [now apply (poll_offsets_monotone updates)|].
  revert offset H.
  induction updates as [|u updates IH]; intros offset H update z Hin Hid Hz.
  - destruct Hin.
  - simpl in H.
    destruct (_update_polling_offset u offset) as [e|o] eqn:E; [discriminate|].
    destruct Hin as [<- | Hin].
    + rewrite (update_polling_offset_int u offset z Hid Hz) in E.
      injection E as <-.
      apply poll_offsets_monotone in H. lia.
    + exact (IH o H update z Hin Hid Hz).
Qed.

Lemma poll_offsets_beyond_batch_witness :
  (0 <= 43)%Z /\
  (forall update z,
      In update [[("update_id", PyInt 42)]; [("update_id", PyInt 7)]; []] ->
      dict_get update "update_id" PyNone = PyInt z ->
      z <> 0%Z ->
      (z < 43)%Z).
Proof.
  apply (poll_offsets_beyond_batch
           [[("update_id", PyInt 42)]; [("update_id", PyInt 7)]; []] 0 43).
  reflexivity.
Defined.

End PollingOffset.

Section MessageContext.
Import Py Bot.

Lemma get_inr v key default r :
  get v key default = inr r ->
  exists d, v = PyDict d /\ r = dict_get d key default.
Proof.
  destruct v; simpl; try discriminate.
  intros H. injection H as <-. eexists; split; reflexivity.
Qed.

(** X9: when a context is extracted, the update has a [message] dict
    whose [chat] is a dict; the chat id and the text returned are the
    ones found there and both are truthy (so a chat id [0] or an empty
    text never yields a context); the user id is the [id] of [from]. *)
Theorem extracted_context_is_usable update chat_id user_id text :
  _extract_message_context update = inr (Some (chat_id, user_id, text)) ->
  truthy chat_id = true /\ truthy text = true /\
  exists message chat from,
    dict_get update "message" PyNone = PyDict message /\
    dict_get message "chat" (PyDict []) = PyDict chat /\
    dict_get message "from" (PyDict []) = PyDict from /\
    chat_id = dict_get chat "id" PyNone /\
    user_id = dict_get from "id" PyNone /\
    text = dict_get message "text" PyNone.
Proof.
  unfold _extract_message_context.
  destruct (truthy (dict_get update "message" PyNone)); simpl; [|discriminate].
  destruct (get (dict_get update "message" PyNone) "chat" (PyDict []))
    as [e|chat] eqn:Echat; [discriminate|].
  destruct (get chat "id" PyNone) as [e|cid] eqn:Ecid; [discriminate|].
  destruct (get (dict_get update "message" PyNone) "from" (PyDict []))
    as [e|from] eqn:Efrom; [discriminate|].
  destruct (get from "id" PyNone) as [e|uid] eqn:Euid; [discriminate|].
  destruct (get (dict_get update "message" PyNone) "text" PyNone)
    as [e|txt] eqn:Etxt; [discriminate|].
  destruct (truthy cid) eqn:Tc; simpl; [|discriminate].
  destruct (truthy txt) eqn:Tt; simpl; [|discriminate].
  intros H. injection H as <- <- <-.
  apply get_inr in Echat. destruct Echat as (message & Hm & ->).
  apply get_inr in Ecid. destruct Ecid as (chat & Hc & ->).
  apply get_inr in Efrom. destruct Efrom as (m2 & Hm2 & ->).
  apply get_inr in Euid. destruct Euid as (from & Hf & ->).
  apply get_inr in Etxt. destruct Etxt as (m3 & Hm3 & ->).
  rewrite Hm in Hm2, Hm3. injection Hm2 as <-. injection Hm3 as <-.
  repeat split; try assumption.
  exists message, chat, from. repeat split; assumption.
Qed.

Lemma extracted_context_is_usable_witness :
  truthy (PyInt 991) = true /\ truthy (PyStr "/start") = true /\
  exists message chat from,
    dict_get
      [("update_id", PyInt 5);
       ("message",
        PyDict [("chat", PyDict [("id", PyInt 991)]);
                ("from", PyDict [("id", PyInt 77)]);
                ("text", PyStr "/start")])]
      "message" PyNone = PyDict message /\
    dict_get message "chat" (PyDict []) = PyDict chat /\
    dict_get message "from" (PyDict []) = PyDict from /\
    PyInt 991 = dict_get chat "id" PyNone /\
    PyInt 77 = dict_get from "id" PyNone /\
    PyStr "/start" = dict_get message "text" PyNone.
Proof.
  apply (extracted_context_is_usable
           [("update_id", PyInt 5);
            ("message",
             PyDict [("chat", PyDict [("id", PyInt 991)]);
                     ("from", PyDict [("id", PyInt 77)]);
                     ("text", PyStr "/start")])]).
  reflexivity.
Defined.

(** X10: a message without sender (no [from] key) whose chat id and
    text are truthy is accepted, with [None] as its user id. *)
Theorem senderless_message_accepted update message chat :
  dict_get update "message" PyNone = PyDict message ->
  dict_get message "chat" (PyDict []) = PyDict chat ->
  dict_get message "from" (PyDict []) = PyDict [] ->
  truthy (dict_get chat "id" PyNone) = true ->
  truthy (dict_get message "text" PyNone) = true ->
  _extract_message_context update
  = inr (Some (dict_get chat "id" PyNone, PyNone,
               dict_get message "text" PyNone)).
Proof.
  intros Hm Hc Hf Hid Ht. unfold _extract_message_context. rewrite Hm.
  assert (Hne : truthy (PyDict message) = true).
  { destruct message; [|reflexivity].
    simpl in Hc. injection Hc as <-. simpl in Hid. discriminate. }
  rewrite Hne. simpl. rewrite Hc. simpl. rewrite Hf. simpl.
  now rewrite Hid, Ht.
Qed.

Lemma senderless_message_accepted_witness :
  _extract_message_context
    [("update_id", PyInt 6);
     ("message",
      PyDict [("chat", PyDict [("id", PyInt (-1001))]);
              ("text", PyStr "hello")])]
  = inr (Some (PyInt (-1001), PyNone, PyStr "hello")).
Proof.
  apply (senderless_message_accepted
           [("update_id", PyInt 6);
            ("message",
             PyDict [("chat", PyDict [("id", PyInt (-1001))]);
                     ("text", PyStr "hello")])]
           [("chat", PyDict [("id", PyInt (-1001))]); ("text", PyStr "hello")]
           [("id", PyInt (-1001))]);
    reflexivity.
Defined.

End MessageContext.

Section BotHandlers.
Import Py Bot.

Lemma int_get_pop_same {V} (d : IntDict V) k : int_get (int_pop d k) k = None.
Proof.
  induction d as [|[k' v] d IH]; simpl; [reflexivity|].
  destruct (Z.eqb_spec k' k) as [->|Hne]; simpl; [exact IH|].
  destruct (Z.eqb_spec k' k); [contradiction | exact IH].
Qed.

Lemma int_get_pop_other {V} (d : IntDict V) k k' :
  k' <> k -> int_get (int_pop d k) k' = int_get d k'.
Proof.
  intros Hne. induction d as [|[k0 v] d IH]; simpl; [reflexivity|].
  destruct (Z.eqb_spec k0 k) as [->|H0]; simpl.
  - destruct (Z.eqb_spec k k'); [congruence | exact IH].
  - now rewrite IH.
Qed.

Lemma int_get_set_same {V} (d : IntDict V) k v :
  int_get (int_set d k v) k = Some v.
Proof.
  induction d as [|[k0 v0] d IH]; simpl.
  - now rewrite Z.eqb_refl.
  - destruct (Z.eqb_spec k0 k) as [->|H0]; simpl.
    + now rewrite Z.eqb_refl.
    + destruct (Z.eqb_spec k0 k); [contradiction | exact IH].
Qed.

Lemma int_get_set_other {V} (d : IntDict V) k k' v :
  k' <> k -> int_get (int_set d k v) k' = int_get d k'.
Proof.
  intros Hne. induction d as [|[k0 v0] d IH]; simpl.
  - destruct (Z.eqb_spec k k'); [congruence | reflexivity].
  - destruct (Z.eqb_spec k0 k) as [->|H0]; simpl.
    + destruct (Z.eqb_spec k k'); [congruence | reflexivity].
    + now rewrite IH.
Qed.

Lemma after_nil st : after st (this st) (lists st) [] = st.
Proof. destruct st. unfold after. simpl. now rewrite app_nil_r. Qed.

Lemma requests_app a b : requests (a ++ b) = (requests a ++ requests b)%list.
Proof. apply flat_map_app. Qed.

(** [send_message]: one request, nothing else touched. *)
Lemma send_message_run chat_id text net st :
  exists evs,
    send_message chat_id text net st
      = (sent_value net st chat_id text, after st (this st) (lists st) evs) /\
    requests evs = [SendMessage chat_id text].
Proof.
  unfold send_message, sent_value, bind, post, emit, ret, after. simpl.
  destruct (send_message_try _); simpl.
  - eexists; split; reflexivity.
  - rewrite <- app_assoc. eexists; split; reflexivity.
Qed.

Lemma edit_message_run chat_id message_id text net st :
  exists b evs,
    edit_message chat_id message_id text net st
      = (b, after st (this st) (lists st) evs) /\
    requests evs = [EditMessageText chat_id message_id text].
Proof.
  unfold edit_message, bind, post, emit, ret, after. simpl.
  destruct (http_post net _ _); simpl.
  - rewrite <- app_assoc. eexists _, _; split; reflexivity.
  - eexists _, _; split; reflexivity.
Qed.

Lemma delete_message_run chat_id message_id net st :
  exists b,
    _delete_message chat_id message_id net st
      = (b, after st (this st) (lists st) [EvPost (DeleteMessage chat_id message_id)]).
Proof.
  unfold _delete_message, bind, post, ret, after. simpl.
  destruct (http_post net _ _); simpl; eexists; reflexivity.
Qed.


(** X12: a user is authorized exactly when the allow-list is empty or
    contains the user's id, so an empty list admits everybody and a
    non-empty list rejects a message without sender; an authorized user
    costs no request, a rejected one gets exactly one message, the
    refusal, in the chat; the bot object and the lists are unchanged. *)
Theorem authorization_follows_allow_list chat_id user_id net st :
  exists authorized evs,
    _authorize_user chat_id user_id net st
      = (authorized, after st (this st) (lists st) evs) /\
    (authorized = true <->
       allowed_users (this st) = [] \/
       exists u, user_id = Some u /\ In u (allowed_users (this st))) /\
    requests evs
      = (if authorized then []
         else [SendMessage chat_id UNAUTHORIZED_MESSAGE]).
Proof.
  unfold _authorize_user, bind at 1, get_this.
  assert (Hmem : in_allowed (allowed_users (this st)) user_id = true <->
                 exists u, user_id = Some u /\ In u (allowed_users (this st))).
  { unfold in_allowed. destruct user_id as [u|].
    - rewrite existsb_exists. split.
      + intros (a & Ha & Heq). apply Z.eqb_eq in Heq. subst a.
        exists u. now split.
      + intros (u' & Hu & Hin). injection Hu as <-.
        exists u. split; [exact Hin | apply Z.eqb_refl].
    - split; [discriminate | intros (u & Hu & _); discriminate]. }
  destruct (allowed_users (this st)) as [|a allowed] eqn:Hallowed; simpl.
  - exists true, []. rewrite after_nil. repeat split; auto.
  - destruct (in_allowed (a :: allowed) user_id) eqn:Hin; simpl.
    + exists true, []. rewrite after_nil. repeat split; auto.
      intros _. right. now apply Hmem.
    + unfold bind at 1, emit. simpl. unfold bind at 1.
      destruct (send_message_run chat_id UNAUTHORIZED_MESSAGE net
                  {| this := this st; lists := lists st;
                     outbox := outbox st ++ [EvBotLog (WarnUnauthorized user_id)] |})
        as (evs & E & R).
      rewrite E. simpl. unfold after. simpl. rewrite <- app_assoc.
      exists false. eexists; split; [reflexivity|]. split.
      * split; [discriminate|]. intros [H|H]; [discriminate|].
        apply Hmem in H. discriminate.
      * rewrite requests_app. simpl. exact R.
Qed.

(** X13: a text is a command exactly when it is [/start] or [/clear],
    compared as whole strings; any other text is left to the assistant
    and the handler then does nothing at all. *)
Theorem commands_are_exact chat_id user_id text net st :
  (fst (_handle_command chat_id user_id text net st) = true <->
     text = "/start" \/ text = "/clear") /\
  (text <> "/start" -> text <> "/clear" ->
   _handle_command chat_id user_id text net st = (false, st)).
Proof.
  unfold _handle_command.
  destruct (String.eqb_spec text "/start") as [->|Hs].
  - split; [|intros H; now elim H].
    unfold bind at 1.
    destruct (send_message_run chat_id WELCOME_MESSAGE net st) as (evs & E & _).
    rewrite E. simpl. split; auto.
  - destruct (String.eqb_spec text "/clear") as [->|Hc].
    + split; [|intros _ H; now elim H].
      split; [auto|intros _].
      unfold bind at 1.
      destruct ((match user_id with
                 | Some u => _
                 | None => ret tt
                 end) net st) as [[] st1].
      unfold bind at 1.
      destruct (send_message_run chat_id HISTORY_CLEARED_MESSAGE net st1)
        as (evs & E & _).
      rewrite E. reflexivity.
    + split; [|reflexivity].
      simpl. split; [discriminate | intros [H|H]; contradiction].
Qed.

(** X14: [/clear] from a known user forgets that user's history and no
    other: afterwards the user has no stored history, every other user's
    history and every tracked status message are as before, and the only
    request is the confirmation sent to the chat. *)
Theorem clear_forgets_one_user chat_id u net st :
  exists st' evs,
    _handle_command chat_id (Some u) "/clear" net st = (true, st') /\
    outbox st' = (outbox st ++ evs)%list /\
    requests evs = [SendMessage chat_id HISTORY_CLEARED_MESSAGE] /\
    history_of st' u = None /\
    (forall u', u' <> u -> history_of st' u' = history_of st u') /\
    status_messages (this st') = status_messages (this st) /\
    allowed_users (this st') = allowed_users (this st) /\
    update_offset (this st') = update_offset (this st).
Proof.
  unfold _handle_command. simpl.
  unfold bind at 1. unfold bind at 1. unfold get_this, put_this. simpl.
  unfold bind at 1.
  match goal with
  | |- context [send_message _ _ net ?s] =>
      destruct (send_message_run chat_id HISTORY_CLEARED_MESSAGE net s)
        as (evs & E & R)
  end.
  rewrite E. simpl. eexists _, evs. split; [reflexivity|].
  unfold history_of. simpl. repeat split; auto.
  - now rewrite int_get_pop_same.
  - intros u' Hne. now rewrite int_get_pop_other.
Qed.

(** [/clear] in a message without sender forgets nothing: the bot
    object and the lists are unchanged, yet the chat is still told that
    the history was cleared. *)
Theorem clear_without_sender_keeps_everything chat_id net st :
  exists evs,
    _handle_command chat_id None "/clear" net st
      = (true, after st (this st) (lists st) evs) /\
    requests evs = [SendMessage chat_id HISTORY_CLEARED_MESSAGE].
Proof.
  unfold _handle_command. simpl. unfold bind at 1. unfold ret at 1.
  unfold bind at 1.
  destruct (send_message_run chat_id HISTORY_CLEARED_MESSAGE net st)
    as (evs & E & R).
  rewrite E. simpl. exists evs. now split.
Qed.

End BotHandlers.

Section StatusMessages.
Import Py Bot.

Lemma upsert_status_run chat_id text net st :
  exists st' evs,
    _upsert_status_message chat_id text net st = (tt, st') /\
    outbox st' = (outbox st ++ evs)%list /\
    lists st' = lists st /\
    same_but_status (this st) (this st') /\
    status_messages (this st')
      = (if truthy (or_none (int_get (status_messages (this st)) chat_id))
         then status_messages (this st)
         else if truthy (sent_value net st chat_id text)
              then int_set (status_messages (this st)) chat_id
                     (sent_value net st chat_id text)
              else status_messages (this st)) /\
    requests evs
      = (if truthy (or_none (int_get (status_messages (this st)) chat_id))
         then [EditMessageText chat_id
                 (or_none (int_get (status_messages (this st)) chat_id)) text]
         else [SendMessage chat_id text]).
Proof.
  unfold _upsert_status_message, bind at 1, get_this.
  destruct (truthy (or_none (int_get (status_messages (this st)) chat_id))).
  - unfold bind at 1.
    destruct (edit_message_run chat_id
                (or_none (int_get (status_messages (this st)) chat_id))
                text net st) as (b & evs & E & R).
    rewrite E. simpl. eexists _, evs. repeat split; auto.
  - unfold bind at 1.
    destruct (send_message_run chat_id text net st) as (evs & E & R).
    rewrite E.
    destruct (truthy (sent_value net st chat_id text)); simpl.
    + eexists _, evs. repeat split; auto.
    + eexists _, evs. repeat split; auto.
Qed.

Lemma clear_status_run chat_id net st :
  exists st' evs,
    _clear_status_message chat_id net st = (tt, st') /\
    outbox st' = (outbox st ++ evs)%list /\
    lists st' = lists st /\
    same_but_status (this st) (this st') /\
    status_messages (this st') = int_pop (status_messages (this st)) chat_id /\
    requests evs
      = (if truthy (or_none (int_get (status_messages (this st)) chat_id))
         then [DeleteMessage chat_id
                 (or_none (int_get (status_messages (this st)) chat_id))]
         else []).
Proof.
  unfold _clear_status_message, bind at 1, get_this.
  unfold bind at 1, put_this.
  destruct (truthy (or_none (int_get (status_messages (this st)) chat_id))).
  - unfold bind at 1.
    match goal with
    | |- context [_delete_message ?c ?m net ?s] =>
        destruct (delete_message_run c m net s) as (b & E)
    end.
    rewrite E. simpl. eexists _, _. repeat split; auto.
  - simpl. eexists _, []. rewrite app_nil_r. repeat split; auto.
Qed.

(** X15: while a chat has a tracked status message, a status update
    edits that message and does nothing else: no new message is sent and
    the bot object and the lists stay as they are, whether or not the
    edit succeeds. *)
Theorem status_update_edits_tracked chat_id text id net st :
  int_get (status_messages (this st)) chat_id = Some id ->
  truthy id = true ->
  exists st' evs,
    _upsert_status_message chat_id text net st = (tt, st') /\
    outbox st' = (outbox st ++ evs)%list /\
    requests evs = [EditMessageText chat_id id text] /\
    status_messages (this st') = status_messages (this st) /\
    same_but_status (this st) (this st') /\
    lists st' = lists st.
Proof.
  intros Hid Ht.
  destruct (upsert_status_run chat_id text net st)
    as (st' & evs & E & O & L & S & D & R).
  rewrite Hid in D, R. simpl in D, R. rewrite Ht in D, R.
  exists st', evs. repeat split; try assumption; apply S.
Qed.

Lemma status_update_edits_tracked_witness :
  exists st' evs,
    _upsert_status_message 991 "working" (mkNet (fun _ _ => HttpRaises "gone"))
      (mkBotSt (mkTelegramAssistant [] [] [(991, PyInt 4)]%Z 0 10)
               (mkHeap (fun _ => []) 0) [])
    = (tt, st') /\
    outbox st' = ([] ++ evs)%list /\
    requests evs = [EditMessageText 991 (PyInt 4) "working"] /\
    status_messages (this st') = [(991, PyInt 4)]%Z /\
    same_but_status (mkTelegramAssistant [] [] [(991, PyInt 4)]%Z 0 10)
                    (this st') /\
    lists st' = mkHeap (fun _ => []) 0.
Proof.
  apply (status_update_edits_tracked 991 "working" (PyInt 4)
           (mkNet (fun _ _ => HttpRaises "gone"))
           (mkBotSt (mkTelegramAssistant [] [] [(991, PyInt 4)]%Z 0 10)
                    (mkHeap (fun _ => []) 0) [])).
  - reflexivity.
  - reflexivity.
Defined.

(** X16: for a chat without tracked status message, a status update
    sends exactly one message; the chat becomes tracked with the id that
    [send_message] returned when that id is truthy, and stays untracked
    when the send failed; other chats keep their entries. *)
Theorem status_update_sends_untracked chat_id text net st :
  int_get (status_messages (this st)) chat_id = None ->
  exists st' evs,
    _upsert_status_message chat_id text net st = (tt, st') /\
    outbox st' = (outbox st ++ evs)%list /\
    requests evs = [SendMessage chat_id text] /\
    int_get (status_messages (this st')) chat_id
      = (if truthy (sent_value net st chat_id text)
         then Some (sent_value net st chat_id text) else None) /\
    (forall chat, chat <> chat_id ->
       int_get (status_messages (this st')) chat
       = int_get (status_messages (this st)) chat) /\
    same_but_status (this st) (this st') /\
    lists st' = lists st.
Proof.
  intros Hid.
  destruct (upsert_status_run chat_id text net st)
    as (st' & evs & E & O & L & S & D & R).
  rewrite Hid in D, R. simpl in D, R.
  exists st', evs. rewrite D.
  repeat split; try assumption; try apply S.
  - destruct (truthy (sent_value net st chat_id text));
      [apply int_get_set_same | exact Hid].
  - intros chat Hne. destruct (truthy (sent_value net st chat_id text));
      [now apply int_get_set_other | reflexivity].
Qed.

Lemma status_update_sends_untracked_witness :
  exists st' evs,
    _upsert_status_message 991 "working" (mkNet (fun _ _ => HttpRaises "down"))
      (mkBotSt (mkTelegramAssistant [] [] [] 0 10) (mkHeap (fun _ => []) 0) [])
    = (tt, st') /\
    outbox st' = ([] ++ evs)%list /\
    requests evs = [SendMessage 991 "working"] /\
    int_get (status_messages (this st')) 991 = None /\
    (forall chat, chat <> 991%Z ->
       int_get (status_messages (this st')) chat = None) /\
    same_but_status (mkTelegramAssistant [] [] [] 0 10) (this st') /\
    lists st' = mkHeap (fun _ => []) 0.
Proof.
  apply (status_update_sends_untracked 991 "working"
           (mkNet (fun _ _ => HttpRaises "down"))
           (mkBotSt (mkTelegramAssistant [] [] [] 0 10)
                    (mkHeap (fun _ => []) 0) [])).
  reflexivity.
Defined.

(** X17: clearing the status of a chat leaves the chat untracked and
    the other chats as they were; the tracked message is deleted with one
    request when there was one, and no request is made otherwise. *)
Theorem status_clear_untracks chat_id net st :
  exists st' evs,
    _clear_status_message chat_id net st = (tt, st') /\
    outbox st' = (outbox st ++ evs)%list /\
    int_get (status_messages (this st')) chat_id = None /\
    (forall chat, chat <> chat_id ->
       int_get (status_messages (this st')) chat
       = int_get (status_messages (this st)) chat) /\
    requests evs
      = (if truthy (or_none (int_get (status_messages (this st)) chat_id))
         then [DeleteMessage chat_id
                 (or_none (int_get (status_messages (this st)) chat_id))]
         else []) /\
    same_but_status (this st) (this st') /\
    lists st' = lists st.
Proof.
  destruct (clear_status_run chat_id net st)
    as (st' & evs & E & O & L & S & D & R).
  exists st', evs. rewrite D.
  repeat split; try assumption; try apply S.
  - apply int_get_pop_same.
  - intros chat Hne. now apply int_get_pop_other.
Qed.

Lemma status_ids_truthy_step op net st :
  status_ids_truthy (status_messages (this st)) ->
  status_ids_truthy (status_messages (this (snd (run_status_op op net st)))) /\
  user_histories (this (snd (run_status_op op net st)))
    = user_histories (this st) /\
  lists (snd (run_status_op op net st)) = lists st.
Proof.
  intros Hinv. destruct op as [chat_id text | chat_id]; simpl.
  - destruct (upsert_status_run chat_id text net st)
      as (st' & evs & E & O & L & S & D & R).
    rewrite E. simpl. split; [|split; [apply S | exact L]].
    rewrite D.
    destruct (truthy (or_none (int_get (status_messages (this st)) chat_id)));
      [exact Hinv|].
    destruct (truthy (sent_value net st chat_id text)) eqn:Hv; [|exact Hinv].
    intros chat id. destruct (Z.eq_dec chat chat_id) as [->|Hne].
    + rewrite int_get_set_same. intros H. injection H as <-. exact Hv.
    + rewrite int_get_set_other by exact Hne. apply Hinv.
  - destruct (clear_status_run chat_id net st)
      as (st' & evs & E & O & L & S & D & R).
    rewrite E. simpl. split; [|split; [apply S | exact L]].
    rewrite D. intros chat id. destruct (Z.eq_dec chat chat_id) as [->|Hne].
    + rewrite int_get_pop_same. discriminate.
    + rewrite int_get_pop_other by exact Hne. apply Hinv.
Qed.

(** X18: whatever sequence of status updates and clears is run, and
    whatever the servers answer, no chat ever becomes tracked with a falsy
    message id, and the stored histories are not touched. *)
Theorem status_bookkeeping_invariant ops :
  forall net st,
    status_ids_truthy (status_messages (this st)) ->
    status_ids_truthy
      (status_messages (this (snd (run_status_ops ops net st)))) /\
    user_histories (this (snd (run_status_ops ops net st)))
      = user_histories (this st) /\
    lists (snd (run_status_ops ops net st)) = lists st.
Proof.
  induction ops as [|op ops IH]; intros net st Hinv; simpl.
  - repeat split. exact Hinv.
  - unfold bind.
    destruct (status_ids_truthy_step op net st Hinv) as (H1 & H2 & H3).
    destruct (run_status_op op net st) as [[] st1]. simpl in *.
    destruct (IH net st1 H1) as (I1 & I2 & I3).
    split; [exact I1|]. split; congruence.
Qed.

Lemma status_bookkeeping_invariant_witness :
  status_ids_truthy
    (status_messages
       (this (snd (run_status_ops
                     [Upsert 991 "thinking"; Upsert 991 "searching"; Clear 991]
                     (mkNet (fun _ _ => HttpOk (Some (PyDict
                        [("ok", PyBool true);
                         ("result", PyDict [("message_id", PyInt 0)])]))))
                     (mkBotSt (mkTelegramAssistant [] [] [] 0 10)
                              (mkHeap (fun _ => []) 0) []))))).
Proof.
  apply (status_bookkeeping_invariant
           [Upsert 991 "thinking"; Upsert 991 "searching"; Clear 991]
           (mkNet (fun _ _ => HttpOk (Some (PyDict
              [("ok", PyBool true);
               ("result", PyDict [("message_id", PyInt 0)])]))))
           (mkBotSt (mkTelegramAssistant [] [] [] 0 10)
                    (mkHeap (fun _ => []) 0) [])).
  intros chat id H. discriminate H.
Defined.

End StatusMessages.

Section StoredHistories.
Import Py Bot Telegram.

Lemma append_history_length max_history history u r :
  (1 <= max_history)%Z ->
  (Z.of_nat (List.length (_append_history max_history history u r))
   <= 2 * max_history)%Z.
Proof.
  intros Hmax. unfold _append_history. rewrite appended_list.
  assert (Hlen : List.length (history ++ turn u r) = List.length history + 2)
    by (rewrite length_app; reflexivity).
  rewrite Hlen.
  destruct (Z.gtb_spec (Z.of_nat (List.length history + 2)) (max_history * 2)).
  - rewrite slice_from_last by lia. rewrite length_skipn, Hlen. lia.
  - rewrite Hlen. lia.
Qed.

(** What recording a turn does, case by case. *)
Lemma remember_turn_run user_id text response net st :
  exists st',
    remember_turn user_id text response net st = (tt, st') /\
    outbox st' = outbox st /\
    next_addr (lists st') = S (next_addr (lists st)) /\
    allowed_users (this st') = allowed_users (this st) /\
    status_messages (this st') = status_messages (this st) /\
    update_offset (this st') = update_offset (this st) /\
    max_history (this st') = max_history (this st) /\
    match user_id with
    | None =>
        user_histories (this st') = user_histories (this st) /\
        forall a, a <> next_addr (lists st) ->
                  cells (lists st') a = cells (lists st) a
    | Some u =>
        match int_get (user_histories (this st)) u with
        | Some a =>
            user_histories (this st') = user_histories (this st) /\
            (a <> next_addr (lists st) ->
             cells (lists st') a
             = _append_history (max_history (this st)) (cells (lists st) a)
                 text response) /\
            forall a', a' <> a -> a' <> next_addr (lists st) ->
                       cells (lists st') a' = cells (lists st) a'
        | None =>
            user_histories (this st')
              = int_set (user_histories (this st)) u (next_addr (lists st)) /\
            cells (lists st') (next_addr (lists st))
              = _append_history (max_history (this st)) [] text response /\
            forall a', a' <> next_addr (lists st) ->
                       cells (lists st') a' = cells (lists st) a'
        end
    end.
Proof.
  unfold remember_turn, _get_or_create_history, _append_history_at,
    bind, get_lists, put_lists, get_this, put_this, alloc, store, deref, ret.
  simpl.
  destruct user_id as [u|]; simpl.
  - destruct (int_get (user_histories (this st)) u) as [a|] eqn:Hget; simpl.
    + eexists; split; [reflexivity|]. simpl. repeat split.
      * intros Hne. rewrite Nat.eqb_refl.
        destruct (Nat.eqb_spec a (next_addr (lists st))); [contradiction|].
        reflexivity.
      * intros a' H1 H2.
        destruct (Nat.eqb_spec a' a); [contradiction|].
        destruct (Nat.eqb_spec a' (next_addr (lists st))); [contradiction|].
        reflexivity.
    + eexists; split; [reflexivity|]. simpl. repeat split.
      * now rewrite !Nat.eqb_refl.
      * intros a' H1.
        destruct (Nat.eqb_spec a' (next_addr (lists st))); [contradiction|].
        reflexivity.
  - eexists; split; [reflexivity|]. simpl. repeat split.
    intros a H1.
    destruct (Nat.eqb_spec a (next_addr (lists st))); [contradiction|].
    reflexivity.
Qed.

Lemma history_elsewhere st st' u' :
  histories_allocated st ->
  int_get (user_histories (this st')) u' = int_get (user_histories (this st)) u' ->
  (forall a, int_get (user_histories (this st)) u' = Some a ->
             cells (lists st') a = cells (lists st) a) ->
  history_of st' u' = history_of st u'.
Proof.
  intros Halloc Hd Hc. unfold history_of, deref. rewrite Hd.
  destruct (int_get (user_histories (this st)) u') as [a|] eqn:Hg;
    [|reflexivity].
  now rewrite (Hc a eq_refl).
Qed.

Lemma own_history_after_turn u text response net st :
  histories_allocated st ->
  histories_separate st ->
  exists st',
    remember_turn (Some u) text response net st = (tt, st') /\
    history_of st' u
      = Some (_append_history (max_history (this st))
                (match history_of st u with Some l => l | None => [] end)
                text response) /\
    (forall u', u' <> u -> history_of st' u' = history_of st u') /\
    outbox st' = outbox st /\
    status_messages (this st') = status_messages (this st).
Proof.
  intros Halloc Hsep.
  destruct (remember_turn_run (Some u) text response net st)
    as (st' & E & O & N & A & S & F & M & H).
  exists st'. split; [exact E|].
  assert (Hfresh : forall u0 a, int_get (user_histories (this st)) u0 = Some a ->
                                a <> next_addr (lists st)).
  { intros u0 a Hg Heq. specialize (Halloc u0 a Hg). lia. }
  cbv beta iota in H.
  destruct (int_get (user_histories (this st)) u) as [a|] eqn:Hget.
  - destruct H as (Hd & Hown & Hother).
    repeat split; try assumption.
    + unfold history_of, deref. rewrite Hd, Hget.
      now rewrite (Hown (Hfresh u a Hget)).
    + intros u' Hne. apply history_elsewhere; [exact Halloc | now rewrite Hd|].
      intros a' Hg'. apply Hother; [|exact (Hfresh u' a' Hg')].
      intros ->. apply Hne. exact (Hsep u' u a Hg' Hget).
  - destruct H as (Hd & Hown & Hother).
    repeat split; try assumption.
    + unfold history_of, deref. rewrite Hd, Hget, int_get_set_same.
      now rewrite Hown.
    + intros u' Hne. apply history_elsewhere; [exact Halloc| |].
      * rewrite Hd. now apply int_get_set_other.
      * intros a' Hg'. apply Hother. exact (Hfresh u' a' Hg').
Qed.

(** X19: recording a turn of a user extends that user's stored history
    in place: afterwards the history stored for the user is what
    [_append_history] makes of the previous one (of the empty list for a
    new user), every other user's history is as before, and nothing is
    sent. *)
Theorem remember_turn_extends_own_history u text response net st :
  histories_allocated st ->
  histories_separate st ->
  exists st',
    remember_turn (Some u) text response net st = (tt, st') /\
    history_of st' u
      = Some (_append_history (max_history (this st))
                (match history_of st u with Some l => l | None => [] end)
                text response) /\
    (forall u', u' <> u -> history_of st' u' = history_of st u') /\
    outbox st' = outbox st /\
    status_messages (this st') = status_messages (this st).
Proof.
  intros Halloc Hsep.
  exact (own_history_after_turn u text response net st Halloc Hsep).
Qed.

Lemma remember_turn_extends_own_history_witness :
  exists st',
    remember_turn (Some 77%Z) "hi" "hello" (mkNet (fun _ _ => HttpRaises "x"))
      (mkBotSt (mkTelegramAssistant [] [] [] 0 10) (mkHeap (fun _ => []) 0) [])
    = (tt, st') /\
    history_of st' 77
      = Some (_append_history 10 [] "hi" "hello") /\
    (forall u', u' <> 77%Z -> history_of st' u' = None) /\
    outbox st' = [] /\
    status_messages (this st') = [].
Proof.
  apply (remember_turn_extends_own_history 77 "hi" "hello"
           (mkNet (fun _ _ => HttpRaises "x"))
           (mkBotSt (mkTelegramAssistant [] [] [] 0 10)
                    (mkHeap (fun _ => []) 0) [])).
  - intros u a H. discriminate H.
  - intros u1 u2 a H. discriminate H.
Defined.

Lemma histories_after_anonymous_turn text response net st :
  histories_allocated st ->
  exists st',
    remember_turn None text response net st = (tt, st') /\
    user_histories (this st') = user_histories (this st) /\
    (forall u, history_of st' u = history_of st u) /\
    outbox st' = outbox st.
Proof.
  intros Halloc.
  destruct (remember_turn_run None text response net st)
    as (st' & E & O & N & A & S & F & M & Hd & Hc).
  exists st'. repeat split; try assumption.
  intros u. apply history_elsewhere; [exact Halloc | now rewrite Hd |].
  intros a Hg. apply Hc. specialize (Halloc u a Hg). lia.
Qed.

(** X20: a turn without user id is recorded in a list that nothing
    refers to: every stored history is as before, so such a conversation
    is never remembered. *)
Theorem remember_turn_without_user_is_forgotten text response net st :
  histories_allocated st ->
  exists st',
    remember_turn None text response net st = (tt, st') /\
    user_histories (this st') = user_histories (this st) /\
    (forall u, history_of st' u = history_of st u) /\
    outbox st' = outbox st.
Proof.
  intros Halloc.
  exact (histories_after_anonymous_turn text response net st Halloc).
Qed.

Lemma remember_turn_without_user_is_forgotten_witness :
  exists st',
    remember_turn None "hi" "hello" (mkNet (fun _ _ => HttpRaises "x"))
      (mkBotSt (mkTelegramAssistant [] [(77%Z, 0)] [] 0 10)
               (mkHeap (fun _ => [mkMessage "user" "a"]) 1) [])
    = (tt, st') /\
    user_histories (this st') = [(77%Z, 0)] /\
    (forall u, history_of st' u
               = history_of
                   (mkBotSt (mkTelegramAssistant [] [(77%Z, 0)] [] 0 10)
                      (mkHeap (fun _ => [mkMessage "user" "a"]) 1) []) u) /\
    outbox st' = [].
Proof.
  apply (remember_turn_without_user_is_forgotten "hi" "hello"
           (mkNet (fun _ _ => HttpRaises "x"))
           (mkBotSt (mkTelegramAssistant [] [(77%Z, 0)] [] 0 10)
                    (mkHeap (fun _ => [mkMessage "user" "a"]) 1) [])).
  intros u a H. cbv [int_get this user_histories] in H.
  destruct (77 =? u)%Z; [|discriminate H].
  injection H as <-. simpl. lia.
Defined.

(** X21: recording a turn keeps the stored histories well formed (each
    an allocated list object, no object shared by two users) and, when
    [max_history >= 1], keeps every stored history within
    [2 * max_history] messages. *)
Theorem remember_turn_keeps_histories_bounded user_id text response net st :
  (1 <= max_history (this st))%Z ->
  histories_allocated st ->
  histories_separate st ->
  histories_bounded st ->
  histories_allocated (snd (remember_turn user_id text response net st)) /\
  histories_separate (snd (remember_turn user_id text response net st)) /\
  histories_bounded (snd (remember_turn user_id text response net st)).
Proof.
  intros Hmax Halloc Hsep Hb.
  assert (Hfresh : forall u0 a, int_get (user_histories (this st)) u0 = Some a ->
                                a <> next_addr (lists st)).
  { intros u0 a Hg Heq. specialize (Halloc u0 a Hg). lia. }
  destruct user_id as [u|].
  - destruct (own_history_after_turn u text response net st
                Halloc Hsep) as (st' & E & Hown & Hother & _).
    destruct (remember_turn_run (Some u) text response net st)
      as (st1 & E1 & O & N & A & S & F & M & H).
    rewrite E in E1. injection E1 as <-. rewrite E. simpl.
    cbv beta iota in H.
    assert (Hkeys : forall u0 a,
               int_get (user_histories (this st')) u0 = Some a ->
               (u0 <> u /\ int_get (user_histories (this st)) u0 = Some a) \/
               (u0 = u /\
                (int_get (user_histories (this st)) u = Some a \/
                 (int_get (user_histories (this st)) u = None /\
                  a = next_addr (lists st))))).
    { intros u0 a Hg.
      destruct (int_get (user_histories (this st)) u) as [a0|] eqn:Hget;
        destruct H as (Hd & _); rewrite Hd in Hg.
      - destruct (Z.eq_dec u0 u) as [->|Hne]; [right | left; auto].
        split; [reflexivity | left; congruence].
      - destruct (Z.eq_dec u0 u) as [->|Hne].
        + rewrite int_get_set_same in Hg. injection Hg as <-.
          right. split; [reflexivity | right; split; reflexivity].
        + rewrite int_get_set_other in Hg by exact Hne. left. auto. }
    repeat split.
    + intros u0 a Hg. rewrite N.
      destruct (Hkeys u0 a Hg) as [(_ & Hg0) | (_ & [Hg0 | (_ & ->)])].
      * specialize (Halloc u0 a Hg0). lia.
      * specialize (Halloc u a Hg0). lia.
      * lia.
    + intros u1 u2 a Hg1 Hg2.
      destruct (Hkeys u1 a Hg1) as [(Hn1 & H1) | (-> & H1)];
        destruct (Hkeys u2 a Hg2) as [(Hn2 & H2) | (-> & H2)];
        try reflexivity.
      * exact (Hsep u1 u2 a H1 H2).
      * destruct H2 as [H2 | (_ & ->)];
          [exact (Hsep u1 u a H1 H2) | now elim (Hfresh u1 _ H1)].
      * destruct H1 as [H1 | (_ & ->)];
          [exact (Hsep u u2 a H1 H2) | now elim (Hfresh u2 _ H2)].
    + intros u0 l Hl. rewrite M.
      destruct (Z.eq_dec u0 u) as [->|Hne].
      * rewrite Hown in Hl. injection Hl as <-.
        now apply append_history_length.
      * rewrite (Hother u0 Hne) in Hl. exact (Hb u0 l Hl).
  - destruct (histories_after_anonymous_turn text response net st
                Halloc) as (st' & E & Hd & Hsame & _).
    destruct (remember_turn_run None text response net st)
      as (st1 & E1 & O & N & A & S & F & M & _).
    rewrite E in E1. injection E1 as <-. rewrite E. simpl.
    repeat split.
    + intros u0 a Hg. rewrite N. rewrite Hd in Hg.
      specialize (Halloc u0 a Hg). lia.
    + intros u1 u2 a Hg1 Hg2. rewrite Hd in Hg1, Hg2.
      exact (Hsep u1 u2 a Hg1 Hg2).
    + intros u0 l Hl. rewrite M. rewrite Hsame in Hl. exact (Hb u0 l Hl).
Qed.

Lemma remember_turn_keeps_histories_bounded_witness :
  histories_allocated
    (snd (remember_turn (Some 77%Z) "hi" "hello"
            (mkNet (fun _ _ => HttpRaises "x"))
            (mkBotSt (mkTelegramAssistant [] [] [] 0 1)
                     (mkHeap (fun _ => []) 0) []))) /\
  histories_separate
    (snd (remember_turn (Some 77%Z) "hi" "hello"
            (mkNet (fun _ _ => HttpRaises "x"))
            (mkBotSt (mkTelegramAssistant [] [] [] 0 1)
                     (mkHeap (fun _ => []) 0) []))) /\
  histories_bounded
    (snd (remember_turn (Some 77%Z) "hi" "hello"
            (mkNet (fun _ _ => HttpRaises "x"))
            (mkBotSt (mkTelegramAssistant [] [] [] 0 1)
                     (mkHeap (fun _ => []) 0) []))).
Proof.
  apply (remember_turn_keeps_histories_bounded (Some 77%Z) "hi" "hello"
           (mkNet (fun _ _ => HttpRaises "x"))
           (mkBotSt (mkTelegramAssistant [] [] [] 0 1)
                    (mkHeap (fun _ => []) 0) [])).
  - simpl. lia.
  - intros u a H. discriminate H.
  - intros u1 u2 a H. discriminate H.
  - intros u l H. discriminate H.
Defined.

End StoredHistories.

(* ===================================================================== *)
(** * Properties of the search tool                                       *)
(* ===================================================================== *)

Section SearchTool.
Import Search.

Lemma build_search_results_loop_run env entries :
  forall results tr,
    _build_search_results_loop entries results env tr
    = ((results ++ map (result_of env) entries)%list,
       (tr ++ map (fun e => SvIsDownloaded (Rss.title e)) entries)%list).
Proof.
  induction entries as [|e entries IH]; intros results tr; simpl.
  - now rewrite !app_nil_r.
  - unfold bind, ask, emit. simpl. rewrite IH.
    rewrite <- !app_assoc. reflexivity.
Qed.

Lemma accesses_app a b : accesses (a ++ b) = (accesses a ++ accesses b)%list.
Proof. apply filter_app. Qed.

Lemma accesses_lookups (entries : list AnimeResourceInfo) :
  accesses (map (fun e => SvIsDownloaded (Rss.title e)) entries)
  = map (fun e => SvIsDownloaded (Rss.title e)) entries.
Proof.
  induction entries as [|e entries IH]; simpl; [reflexivity|]. now rewrite IH.
Qed.

Lemma filter_lengths {A} (f : A -> bool) (l : list A) :
  List.length (filter f l) + List.length (filter (fun x => negb (f x)) l)
  = List.length l.
Proof.
  induction l as [|a l IH]; simpl; [reflexivity|].
  destruct (f a); simpl; lia.
Qed.

(** X22: splitting loses nothing and duplicates nothing: every result is
    in exactly one of the two lists, chosen by its [is_downloaded] flag,
    and the two lengths add up to the number of results. *)
Theorem split_results_partitions (results : list SearchResult) :
  let downloaded := fst (_split_results results) in
  let new_resources := snd (_split_results results) in
  List.length downloaded + List.length new_resources = List.length results /\
  (forall r, In r downloaded <-> In r results /\ is_downloaded r = true) /\
  (forall r, In r new_resources <-> In r results /\ is_downloaded r = false).
Proof.
  unfold _split_results. simpl. split; [|split].
  - apply (filter_lengths (fun r => is_downloaded r)).
  - intros r. apply filter_In.
  - intros r. rewrite filter_In, negb_true_iff. reflexivity.
Qed.

(** X23: the search lists every fetched entry, in feed order, with the
    download flag the history reports for its title; an entry without
    download URL is not dropped but listed with an empty URL; the history
    is looked up exactly once per entry, in order. *)
Theorem search_results_mirror_entries env entries tr :
  let results := fst (_build_search_results entries env tr) in
  List.length results = List.length entries /\
  map title results = map Rss.title entries /\
  map is_downloaded results
    = map (fun e => db_is_downloaded env (Rss.title e)) entries /\
  map download_url results
    = map (fun e => or_empty (Rss.download_url e)) entries /\
  snd (_build_search_results entries env tr)
    = (tr ++ map (fun e => SvIsDownloaded (Rss.title e)) entries)%list.
Proof.
  unfold _build_search_results. rewrite build_search_results_loop_run. simpl.
  rewrite length_map, !map_map. repeat split.
Qed.

(** X24: the flags decide the two sections: the results shown as new are
    exactly those of the entries the history does not report, the ones
    shown as downloaded exactly those it reports, both in feed order. *)
Theorem new_resources_are_not_in_history env entries tr :
  let results := fst (_build_search_results entries env tr) in
  fst (_split_results results)
    = map (result_of env)
        (filter (fun e => db_is_downloaded env (Rss.title e)) entries) /\
  snd (_split_results results)
    = map (result_of env)
        (filter (fun e => negb (db_is_downloaded env (Rss.title e))) entries).
Proof.
  unfold _build_search_results. rewrite build_search_results_loop_run. simpl.
  unfold _split_results. simpl.
  split; induction entries as [|e entries IH]; simpl; try reflexivity;
    destruct (db_is_downloaded env (Rss.title e)); simpl; now rewrite IH.
Qed.

(** X25: for a website other than the three known ones the tool answers
    that the website is unsupported and touches neither the factory, nor
    a feed, nor the history. *)
Theorem unsupported_website_is_refused env anime_name website tr :
  ~ supported website ->
  exists evs,
    execute anime_name website env tr
      = ("❌ Unsupported website: " ++ website, (tr ++ evs)%list) /\
    accesses evs = [].
Proof.
  intros Hns. unfold execute, bind at 1, ask. unfold bind at 1, log, emit.
  unfold _build_search_url.
  destruct (String.eqb_spec website "mikan") as [->|H1].
  { elim Hns. now left. }
  destruct (String.eqb_spec website "dmhy") as [->|H2].
  { elim Hns. right. now left. }
  destruct (String.eqb_spec website "acgrip") as [->|H3].
  { elim Hns. right. now right. }
  unfold bind, ret. rewrite <- app_assoc.
  eexists; split; reflexivity.
Qed.

Lemma unsupported_website_is_refused_witness :
  exists evs,
    execute "Frieren" "nyaa"
      (mkSearchEnv (fun s => s) (fun _ => Rss.CreateRaises "no")
                   (fun _ _ => FetchRaises "no") (fun _ => false)) []
      = ("❌ Unsupported website: " ++ "nyaa", ([] ++ evs)%list) /\
    accesses evs = [].
Proof.
  apply (unsupported_website_is_refused
           (mkSearchEnv (fun s => s) (fun _ => Rss.CreateRaises "no")
                        (fun _ _ => FetchRaises "no") (fun _ => false))
           "Frieren" "nyaa" []).
  unfold supported. intros [H | [H | H]]; discriminate H.
Defined.

(** X30: each section of the answer shows at most ten resources: two
    lists of the same length that agree on their first ten resources are
    formatted identically, so a resource beyond the tenth influences the
    text only through the count. *)
Theorem sections_show_first_ten (l l' : list SearchResult) :
  List.length l = List.length l' ->
  firstn 10 l = firstn 10 l' ->
  _format_new_resources l = _format_new_resources l' /\
  _format_downloaded_resources l = _format_downloaded_resources l'.
Proof.
  intros Hlen Hfirst.
  unfold _format_new_resources, _format_downloaded_resources.
  rewrite Hlen, Hfirst. split; reflexivity.
Qed.

Lemma sections_show_first_ten_witness :
  _format_new_resources
    (repeat (mkSearchResult "a" "magnet:a" false None None None) 10
     ++ [mkSearchResult "b" "magnet:b" false None None None])
  = _format_new_resources
      (repeat (mkSearchResult "a" "magnet:a" false None None None) 10
       ++ [mkSearchResult "c" "magnet:c" false None None (Some "1080p")]) /\
  _format_downloaded_resources
    (repeat (mkSearchResult "a" "magnet:a" false None None None) 10
     ++ [mkSearchResult "b" "magnet:b" false None None None])
  = _format_downloaded_resources
      (repeat (mkSearchResult "a" "magnet:a" false None None None) 10
       ++ [mkSearchResult "c" "magnet:c" false None None (Some "1080p")]).
Proof.
  apply (sections_show_first_ten
           (repeat (mkSearchResult "a" "magnet:a" false None None None) 10
            ++ [mkSearchResult "b" "magnet:b" false None None None])
           (repeat (mkSearchResult "a" "magnet:a" false None None None) 10
            ++ [mkSearchResult "c" "magnet:c" false None None (Some "1080p")])).
  - reflexivity.
  - reflexivity.
Defined.

End SearchTool.

(* ===================================================================== *)
(** * Properties of the completion loop                                   *)
(* ===================================================================== *)

Section CompletionLoop.
Import Parser.

Lemma completion_choices_app a b :
  completion_choices (a ++ b)
  = (completion_choices a ++ completion_choices b)%list.
Proof. apply flat_map_app. Qed.

Lemma request_completion_run tool_choice env st :
  _request_completion tool_choice env st
  = (completion_result
       (complete env (calls st) (messages st)
          (if Rss.truthy tool_choice then tool_choice else None)),
     {| messages := messages st;
        calls := (calls st
                  ++ [PvCompletion (messages st)
                        (if Rss.truthy tool_choice then tool_choice
                         else None)])%list |}).
Proof.
  unfold _request_completion, bind, ask, get_messages, get_calls, emit. simpl.
  destruct (complete env _ _ _); reflexivity.
Qed.

Lemma run_tool_run ev handler c env st :
  run_tool ev handler c env st
  = match handler env (calls st) c (messages st) with
    | ToolDone ms' =>
        (inr tt, {| messages := ms';
                    calls := (calls st ++ [ev c (messages st)])%list |})
    | ToolRaises exc =>
        (inl exc, {| messages := messages st;
                     calls := (calls st ++ [ev c (messages st)])%list |})
    end.
Proof.
  unfold run_tool, bind, ask, get_messages, get_calls, emit, put_messages.
  simpl. destruct (handler env _ _ _); reflexivity.
Qed.

(** The tool calls make no completion request, and when they raise, the
    exception is the one raised by the last handler run. *)
Lemma handle_tool_calls_run env tcs :
  forall st, exists r ms evs,
    _handle_tool_calls tcs env st
    = (r, {| messages := ms; calls := (calls st ++ evs)%list |}) /\
    completion_choices evs = [] /\
    (forall exc, r = inl exc ->
       exists evs0 last,
         evs = (evs0 ++ [last])%list /\
         raised_by env (calls st ++ evs0) last = Some exc).
Proof.
  induction tcs as [|c tcs IH]; intros st; simpl.
  - exists (inr tt), (messages st), []. rewrite app_nil_r.
    destruct st; repeat split. intros exc H; discriminate H.
  - unfold bind at 1.
    destruct (String.eqb (function_name c) "search_tmdb").
    + rewrite run_tool_run.
      destruct (handle_search_tmdb env (calls st) c (messages st))
        as [exc | ms'] eqn:Hh.
      * eexists _, _, [_]. split; [reflexivity|]. split; [reflexivity|].
        intros exc' H. injection H as <-.
        exists [], (PvSearchTmdb c (messages st)). split; [reflexivity|].
        simpl. rewrite app_nil_r, Hh. reflexivity.
      * destruct (IH {| messages := ms';
                        calls := (calls st
                                  ++ [PvSearchTmdb c (messages st)])%list |})
          as (r' & ms2 & evs & E' & C & R).
        rewrite E'. simpl. rewrite <- app_assoc.
        eexists _, _, _. split; [reflexivity|]. split.
        -- rewrite completion_choices_app, C. reflexivity.
        -- intros exc H. destruct (R exc H) as (evs0 & last & -> & Hr).
           exists ([PvSearchTmdb c (messages st)] ++ evs0)%list, last.
           split; [now rewrite <- app_assoc|].
           simpl in Hr. rewrite <- app_assoc in Hr. exact Hr.
    + destruct (String.eqb (function_name c) "verify_tmdb_season_episode").
      * rewrite run_tool_run.
        destruct (handle_verify_tmdb env (calls st) c (messages st))
          as [exc | ms'] eqn:Hh.
        -- eexists _, _, [_]. split; [reflexivity|]. split; [reflexivity|].
           intros exc' H. injection H as <-.
           exists [], (PvVerifyTmdb c (messages st)). split; [reflexivity|].
           simpl. rewrite app_nil_r, Hh. reflexivity.
        -- destruct (IH {| messages := ms';
                           calls := (calls st
                                     ++ [PvVerifyTmdb c (messages st)])%list |})
             as (r' & ms2 & evs & E' & C & R).
           rewrite E'. simpl. rewrite <- app_assoc.
           eexists _, _, _. split; [reflexivity|]. split.
           ++ rewrite completion_choices_app, C. reflexivity.
           ++ intros exc H. destruct (R exc H) as (evs0 & last & -> & Hr).
              exists ([PvVerifyTmdb c (messages st)] ++ evs0)%list, last.
              split; [now rewrite <- app_assoc|].
              simpl in Hr. rewrite <- app_assoc in Hr. exact Hr.
      * unfold ret at 1. apply IH.
Qed.

(** One more round in front of a loop that stopped. *)
Lemma stopped_after_round env n before pre evs r ms :
  completion_choices pre = [Some "auto"] ->
  stopped env n (before ++ pre) evs r ms ->
  stopped env (Datatypes.S n) before (pre ++ evs) r ms.
Proof.
  intros Hpre (evs0 & last & -> & H).
  exists (pre ++ evs0)%list, last. split; [now rewrite app_assoc|].
  rewrite (app_assoc before pre evs0).
  destruct H as [(k & m & ms_req & Hk & Hc & Hl & Ha & Ht & Hr & Hm)
                | [(k & exc & Hk & Hc & Hx & Hr) | (msf & Hl & Hc & Hr & Hm)]].
  - left. exists (Datatypes.S k), m, ms_req. repeat split; try assumption; try lia.
    rewrite completion_choices_app, Hpre, Hc. reflexivity.
  - right. left. exists (Datatypes.S k), exc.
    repeat split; try assumption; try lia.
    rewrite completion_choices_app, Hpre, Hc. reflexivity.
  - right. right. exists msf. repeat split; try assumption.
    rewrite completion_choices_app, Hpre, Hc. reflexivity.
Qed.

(** The loop with [n] rounds left always stops in one of the three
    ways. *)
Lemma get_response_rounds_run env n :
  forall st, exists r ms evs,
    get_response_rounds n env st
    = (r, {| messages := ms; calls := (calls st ++ evs)%list |}) /\
    stopped env n (calls st) evs r ms.
Proof.
  induction n as [|n IH]; intros st.
  - simpl. rewrite request_completion_run. simpl.
    eexists _, _, [_]. split; [reflexivity|].
    exists [], (PvCompletion (messages st) None). split; [reflexivity|].
    right. right. exists (messages st). rewrite app_nil_r. repeat split.
  - simpl. unfold bind at 1. rewrite request_completion_run. simpl.
    destruct (complete env (calls st) (messages st) (Some "auto"))
      as [exc | message] eqn:Hc; simpl.
    + eexists _, _, [_]. split; [reflexivity|].
      exists [], (PvCompletion (messages st) (Some "auto")).
      split; [reflexivity|]. right. left. exists 1, exc.
      repeat split; try lia. simpl. rewrite app_nil_r, Hc. reflexivity.
    + destruct (tool_calls message) as [|c tcs] eqn:Htc.
      * unfold bind, append_message, bind, get_messages, put_messages, ret.
        simpl. eexists _, _, [_]. split; [reflexivity|].
        exists [], (PvCompletion (messages st) (Some "auto")).
        split; [reflexivity|]. left. exists 1, message, (messages st).
        rewrite app_nil_r. repeat split; try assumption; lia.
      * unfold bind at 1.
        unfold append_message at 1, bind at 1, get_messages, put_messages.
        cbn [messages calls]. unfold bind at 1.
        match goal with
        | |- context [_handle_tool_calls ?l env ?s] =>
            destruct (handle_tool_calls_run env l s)
              as (r1 & ms1 & evs1 & E1 & C1 & R1)
        end.
        rewrite E1. cbn [messages calls] in *. destruct r1 as [exc|[]].
        -- rewrite <- app_assoc.
           eexists _, _, _. split; [reflexivity|].
           destruct (R1 exc eq_refl) as (evs0 & last & -> & Hr).
           exists ([PvCompletion (messages st) (Some "auto")] ++ evs0)%list, last.
           split; [now rewrite <- app_assoc|].
           right. left. exists 1, exc. repeat split; try lia.
           ++ rewrite completion_choices_app, C1. reflexivity.
           ++ rewrite app_assoc. exact Hr.
        -- destruct (IH {| messages := ms1;
                           calls := ((calls st
                                      ++ [PvCompletion (messages st) (Some "auto")])
                                     ++ evs1)%list |})
             as (r2 & ms2 & evs2 & E2 & S2).
           rewrite E2. cbn [messages calls] in *. rewrite <- !app_assoc.
           eexists r2, ms2, _. split; [reflexivity|].
           rewrite <- app_assoc in S2.
           rewrite (app_assoc [PvCompletion (messages st) (Some "auto")]
                      evs1 evs2).
           apply stopped_after_round; [|exact S2].
           rewrite completion_choices_app, C1. reflexivity.
Qed.

Lemma repeat_auto_length k :
  List.length (repeat (Some "auto") k) = k.
Proof. apply repeat_length. Qed.

(** X27: the loop always makes at least one and at most
    [max_rounds + 1] completion requests: requests with [tool_choice]
    set to [auto], one per round, and after them one last request
    without [tool_choice].  The last request is left out only when a
    round returned a message without tool calls or a call of a round
    raised; with a non-positive [max_rounds] it is the only request. *)
Theorem completion_requests_bounded env max_rounds st :
  exists evs,
    calls (snd (_get_response_message max_rounds env st))
      = (calls st ++ evs)%list /\
    1 <= List.length (completion_choices evs) <= Z.to_nat max_rounds + 1 /\
    ((exists k,
         1 <= k <= Z.to_nat max_rounds /\
         completion_choices evs = repeat (Some "auto") k /\
         ((exists m,
              fst (_get_response_message max_rounds env st) = inr m /\
              tool_calls m = []) \/
          (exists exc evs0 last,
              fst (_get_response_message max_rounds env st) = inl exc /\
              evs = (evs0 ++ [last])%list /\
              raised_by env (calls st ++ evs0) last = Some exc))) \/
     completion_choices evs
       = (repeat (Some "auto") (Z.to_nat max_rounds) ++ [None])%list) /\
    ((max_rounds <= 0)%Z -> completion_choices evs = [None]).
Proof.
  unfold _get_response_message.
  destruct (get_response_rounds_run env (Z.to_nat max_rounds) st)
    as (r & ms & evs & E & evs0 & last & Hevs & H).
  rewrite E. simpl. exists evs. split; [reflexivity|].
  assert (Hshape :
    (exists k,
        1 <= k <= Z.to_nat max_rounds /\
        completion_choices evs = repeat (Some "auto") k /\
        ((exists m, r = inr m /\ tool_calls m = []) \/
         (exists exc evs1 last1,
             r = inl exc /\ evs = (evs1 ++ [last1])%list /\
             raised_by env (calls st ++ evs1) last1 = Some exc))) \/
    completion_choices evs
      = (repeat (Some "auto") (Z.to_nat max_rounds) ++ [None])%list).
  { destruct H as [(k & m & ms_req & Hk & Hc & Hl & Ha & Ht & Hr & Hm)
                  | [(k & exc & Hk & Hc & Hx & Hr) | (msf & Hl & Hc & Hr & Hm)]].
    - left. exists k. split; [exact Hk|]. split; [exact Hc|].
      left. exists m. now split.
    - left. exists k. split; [exact Hk|]. split; [exact Hc|].
      right. exists exc, evs0, last. now repeat split.
    - right. rewrite Hevs, completion_choices_app, Hc, Hl. reflexivity. }
  split; [|split; [exact Hshape|]].
  - destruct Hshape as [(k & Hk & -> & _) | ->].
    + rewrite repeat_auto_length. lia.
    + rewrite length_app, repeat_auto_length. simpl. lia.
  - intros Hneg. destruct Hshape as [(k & Hk & _) | ->].
    + lia.
    + replace (Z.to_nat max_rounds) with 0 by lia. reflexivity.
Qed.

(** X28: a message returned by the loop is the answer of the client to
    the last request made.  Either that request asked with [tool_choice]
    set to [auto], the message has no tool calls and it is the last
    element of [messages]; or it is the final request, made without
    [tool_choice] after [max_rounds] requests with [auto], and the
    message is not appended to [messages]. *)
Theorem returned_message_is_final env max_rounds st m st' :
  _get_response_message max_rounds env st = (inr m, st') ->
  exists evs0 ms_req tool_choice,
    calls st' = (calls st ++ evs0 ++ [PvCompletion ms_req tool_choice])%list /\
    complete env (calls st ++ evs0) ms_req tool_choice = CompletionReturns m /\
    ((tool_choice = Some "auto" /\
      tool_calls m = [] /\
      messages st' = (ms_req ++ [ItemCompletion m])%list) \/
     (tool_choice = None /\
      completion_choices evs0 = repeat (Some "auto") (Z.to_nat max_rounds) /\
      messages st' = ms_req)).
Proof.
  unfold _get_response_message. intros Hrun.
  destruct (get_response_rounds_run env (Z.to_nat max_rounds) st)
    as (r & ms & evs & E & evs0 & last & Hevs & H).
  rewrite E in Hrun. injection Hrun as -> <-. simpl. subst evs.
  destruct H as [(k & m' & ms_req & Hk & Hc & Hl & Ha & Ht & Hr & Hm)
                | [(k & exc & Hk & Hc & Hx & Hr) | (msf & Hl & Hc & Hr & Hm)]].
  - injection Hr as <-. subst last.
    exists evs0, ms_req, (Some "auto"). split; [reflexivity|].
    split; [exact Ha|]. left. now repeat split.
  - discriminate Hr.
  - subst last. exists evs0, msf, None. split; [reflexivity|]. split.
    + destruct (complete env (calls st ++ evs0) msf None) as [exc|m'];
        simpl in Hr; [discriminate Hr|]. now injection Hr as <-.
    + right. now repeat split.
Qed.

Lemma returned_message_is_final_witness :
  exists evs0 ms_req tool_choice,
    calls
      {| messages := [ItemDict "user" "Feed Title: x";
                      ItemCompletion (mkChatMessage (Some "{}") [])];
         calls := [PvCompletion [ItemDict "user" "Feed Title: x"]
                     (Some "auto")] |}
    = ([] ++ evs0 ++ [PvCompletion ms_req tool_choice])%list /\
    complete
      (mkParserEnv
         (fun _ _ _ => CompletionReturns (mkChatMessage (Some "{}") []))
         (fun _ _ ms => ToolDone ms) (fun _ _ ms => ToolDone ms))
      ([] ++ evs0) ms_req tool_choice
    = CompletionReturns (mkChatMessage (Some "{}") []) /\
    ((tool_choice = Some "auto" /\
      tool_calls (mkChatMessage (Some "{}") []) = [] /\
      messages
        {| messages := [ItemDict "user" "Feed Title: x";
                        ItemCompletion (mkChatMessage (Some "{}") [])];
           calls := [PvCompletion [ItemDict "user" "Feed Title: x"]
                       (Some "auto")] |}
      = (ms_req ++ [ItemCompletion (mkChatMessage (Some "{}") [])])%list) \/
     (tool_choice = None /\
      completion_choices evs0 = repeat (Some "auto") (Z.to_nat 5) /\
      messages
        {| messages := [ItemDict "user" "Feed Title: x";
                        ItemCompletion (mkChatMessage (Some "{}") [])];
           calls := [PvCompletion [ItemDict "user" "Feed Title: x"]
                       (Some "auto")] |}
      = ms_req)).
Proof.
  apply (returned_message_is_final
           (mkParserEnv
              (fun _ _ _ => CompletionReturns (mkChatMessage (Some "{}") []))
              (fun _ _ ms => ToolDone ms) (fun _ _ ms => ToolDone ms))
           5 (mkPSt [ItemDict "user" "Feed Title: x"] [])).
  reflexivity.
Defined.

(** X29: tool calls whose name is neither [search_tmdb] nor
    [verify_tmdb_season_episode] are skipped silently: no handler runs,
    nothing is appended to [messages], and no error is raised. *)
Theorem unknown_tools_are_ignored tcs env st :
  forallb (fun c => negb (known_tool c)) tcs = true ->
  _handle_tool_calls tcs env st = (inr tt, st).
Proof.
  induction tcs as [|c tcs IH]; intros H; simpl; [reflexivity|].
  simpl in H. apply andb_true_iff in H. destruct H as (Hc & Hrest).
  unfold known_tool in Hc. apply negb_true_iff, orb_false_iff in Hc.
  destruct Hc as (-> & ->). unfold bind, ret. now apply IH.
Qed.

Lemma unknown_tools_are_ignored_witness :
  _handle_tool_calls [mkToolCall "call_1" "search_imdb" "{}"]
    (mkParserEnv (fun _ _ _ => CompletionRaises "x")
                 (fun _ _ _ => ToolRaises "x") (fun _ _ _ => ToolRaises "x"))
    (mkPSt [] [])
  = (inr tt, mkPSt [] []).
Proof.
  apply (unknown_tools_are_ignored [mkToolCall "call_1" "search_imdb" "{}"]).
  reflexivity.
Defined.

End CompletionLoop.
